(** * Keyboard shortcuts of the GUI module (src/app/modules/gui.cpp)

    A shallow embedding of the shortcut registry ([shortcuts]), of the
    functions that register and look up shortcuts, of [Shortcut::is_pressed]
    and of the [kKeyDownMessage] case of
    [CustomizedGuiManager::onProcessMessage], followed by the properties
    that the specification states about them.

    Pointers are modelled as follows: a nullable pointer is an [option]; a
    [Shortcut*] into the vector [shortcuts] is the index of the element
    (paired with the element it points to); the identity of a [Command], a
    [tools::Tool] or a [Window] is a natural number. *)

From stdpp Require Import base decidable option numbers list gmap strings.

Set Warnings "-clear-no-such-hyp".

(** ** External collaborators *)

(** Identity of a [Command] object ([Command*]). *)
Definition Command : Type := nat.
(** Identity of a [tools::Tool] object ([tools::Tool*]). *)
Definition Tool : Type := nat.

#[global] Instance Command_eq_dec : EqDecision Command := Nat.eq_dec.
#[global] Instance Tool_eq_dec : EqDecision Tool := Nat.eq_dec.

(** [Params]: a map from parameter names to values; [Params::empty] and
    [operator==] are those of the underlying map. *)
Abbreviation Params := (gmap string string).

Definition Params_empty (p : Params) : bool := bool_decide (p = ∅).

(** [KeyContext] (ui/accelerator.h is not part of this file; the three
    constants are the ones this file uses). *)
Inductive KeyContext := Any | Normal | Selection.

#[global] Instance KeyContext_eq_dec : EqDecision KeyContext.
Proof. solve_decision. Defined.

(** What [Shortcut::is_pressed] reads from a key message. *)
Record KeyMessage := mkKeyMessage {
  keyModifiers : Z;
  scancode : Z;
  unicodeChar : Z
}.

(** Allegro's [key] array: which scancodes are held down right now. *)
Definition KeyArray : Type := Z → bool.

(** The [ui::Accelerator] class is not defined in this file: the embedding
    is parametric in it.  [accel_new] is [new Accelerator]. *)
Class AcceleratorOps := {
  Accelerator : Type;
  accel_new : Accelerator;
  addKeysFromString : string → Accelerator → Accelerator;
  check : Accelerator → Z → Z → Z → bool;
  checkFromAllegroKeyArray : Accelerator → KeyArray → bool
}.

(** A top-level window as the manager sees it. *)
Record Window := mkWindow {
  win_id : nat;
  isForeground : bool;
  isDesktop : bool
}.

(** A document, as far as [get_current_keycontext] looks at it. *)
Record Document := mkDocument {
  isMaskVisible : bool
}.

(** The application state that the shortcut code reads. *)
Record Env := mkEnv {
  (* UIContext::instance()->activeLocation().document() *)
  activeDocument : option Document;
  (* UIContext::instance()->settings()->getCurrentTool() *)
  getCurrentTool : Tool;
  (* tool->getInk(0)->isSelection() *)
  inkIsSelection : Tool → bool;
  (* App::instance()->getToolBox(), from begin() to end() *)
  toolbox : list Tool;
  (* ToolBar::instance()->isToolVisible(tool) *)
  isToolVisible : Tool → bool;
  (* Manager::getChildren(), first child first *)
  getChildren : list Window;
  (* App::instance()->getMainWindow() *)
  getMainWindow : nat;
  (* the Allegro key array *)
  keyArray : KeyArray
}.

(** Modelled from the spec: [Manager::getTopWindow] is not in this file; the
    window stack is enumerated from top to bottom, so the top window is the
    first child of the manager (none when there is no window). *)
Definition getTopWindow (env : Env) : option Window := head (getChildren env).

(** ** [struct Shortcut] *)

Inductive ShortcutType := ExecuteCommand | ChangeTool | EditorQuicktool | SpriteEditor.

#[global] Instance ShortcutType_eq_dec : EqDecision ShortcutType.
Proof. solve_decision. Defined.

Definition SPRITEDITOR_ACTION_COPYSELECTION : string := "CopySelection".
Definition SPRITEDITOR_ACTION_SNAPTOGRID : string := "SnapToGrid".
Definition SPRITEDITOR_ACTION_ANGLESNAP : string := "AngleSnap".
Definition SPRITEDITOR_ACTION_MAINTAINASPECTRATIO : string := "MaintainAspectRatio".
Definition SPRITEDITOR_ACTION_LOCKAXIS : string := "LockAxis".
Definition SPRITEDITOR_ACTION_ADDSEL : string := "AddSelection".
Definition SPRITEDITOR_ACTION_SUBSEL : string := "SubtractSelection".

(** What the handler of a key-down message does to its collaborators. *)
Inductive Effect :=
  | CancelMenuLoop
  | SelectTool (tool : option Tool)
  | ExecCommand (command : option Command) (params : option Params).

(** How the handler ends: [return true], or
    [return Manager::onProcessMessage(msg)]. *)
Inductive Outcome := ReturnTrue | DefaultProcessing.

(** What a shortcut is registered for: a command with its parameters, a
    tool to change to, a tool to use as quick tool, or an action of the
    sprite editor. *)
Inductive Identity :=
  | IdCommand (c : Command) (p : Params)
  | IdTool (t : option Tool)
  | IdQuicktool (t : option Tool)
  | IdSpriteEditor (a : string).

#[global] Instance Identity_eq_dec : EqDecision Identity.
Proof. solve_decision. Defined.

Section Shortcuts.

Context `{AO : AcceleratorOps}.

(** [CommandsModule::instance()->getCommandByName]; [None] is [NULL]. *)
Variable getCommandByName : string → option Command.

(** [accel] and [params] are pointers that the shortcut owns; [accel] is set
    by the constructor and never [NULL] afterwards. *)
Record Shortcut := mkShortcut {
  accel : option Accelerator;
  type : ShortcutType;
  command : option Command;
  keycontext : KeyContext;
  tool : option Tool;
  action : string;
  params : option Params
}.

(** [Shortcut::Shortcut(Type)] *)
Definition Shortcut_new (ty : ShortcutType) : Shortcut :=
  {| accel := Some accel_new; type := ty; command := None;
     keycontext := Any; tool := None; action := ""; params := None |}.

(** Assignments to the fields of a shortcut. *)
Definition set_command (c : option Command) (s : Shortcut) : Shortcut :=
  {| accel := accel s; type := type s; command := c; keycontext := keycontext s;
     tool := tool s; action := action s; params := params s |}.
Definition set_keycontext (kc : KeyContext) (s : Shortcut) : Shortcut :=
  {| accel := accel s; type := type s; command := command s; keycontext := kc;
     tool := tool s; action := action s; params := params s |}.
Definition set_tool (t : option Tool) (s : Shortcut) : Shortcut :=
  {| accel := accel s; type := type s; command := command s;
     keycontext := keycontext s; tool := t; action := action s;
     params := params s |}.
Definition set_action (a : string) (s : Shortcut) : Shortcut :=
  {| accel := accel s; type := type s; command := command s;
     keycontext := keycontext s; tool := tool s; action := a;
     params := params s |}.
Definition set_params (p : option Params) (s : Shortcut) : Shortcut :=
  {| accel := accel s; type := type s; command := command s;
     keycontext := keycontext s; tool := tool s; action := action s;
     params := p |}.

(** [Shortcut::add_shortcut]: the accelerator is updated in place. *)
Definition add_shortcut (shortcut_string : string) (s : Shortcut) : Shortcut :=
  {| accel := addKeysFromString shortcut_string <$> accel s;
     type := type s; command := command s; keycontext := keycontext s;
     tool := tool s; action := action s; params := params s |}.

(** [get_current_keycontext] *)
Definition get_current_keycontext (env : Env) : KeyContext :=
  match activeDocument env with
  | Some doc =>
      if isMaskVisible doc && inkIsSelection env (getCurrentTool env)
      then Selection else Normal
  | None => Normal
  end.

(** [Shortcut::is_pressed] *)
Definition is_pressed (env : Env) (msg : KeyMessage) (s : Shortcut) : bool :=
  match accel s with
  | Some a =>
      let res := check a (keyModifiers msg) (scancode msg) (unicodeChar msg) in
      if res && bool_decide (keycontext s ≠ Any)
             && bool_decide (keycontext s ≠ get_current_keycontext env)
      then false else res
  | None => false
  end.

(** [Shortcut::is_pressed_from_key_array] *)
Definition is_pressed_from_key_array (env : Env) (s : Shortcut) : bool :=
  match accel s with
  | Some a =>
      let res := checkFromAllegroKeyArray a (keyArray env) in
      if res && bool_decide (keycontext s ≠ Any)
             && bool_decide (keycontext s ≠ get_current_keycontext env)
      then false else res
  | None => false
  end.

(** *** Lookups: the first shortcut of the vector that satisfies the test *)

(** The test in the loop of [get_keyboard_shortcut_for_command], for a
    command that was found.  A [ExecuteCommand] shortcut always has its
    [params] set; the test of a shortcut without them is [false]. *)
Definition is_shortcut_for_command (cmd : Command) (p : option Params)
    (s : Shortcut) : bool :=
  bool_decide (type s = ExecuteCommand) &&
  bool_decide (command s = Some cmd) &&
  match params s with
  | Some sp =>
      match p with
      | None => Params_empty sp
      | Some p' => bool_decide (sp = p')
      end
  | None => false
  end.

Definition get_keyboard_shortcut_for_command (command_name : string)
    (p : option Params) (shortcuts : list Shortcut) : option (nat * Shortcut) :=
  match getCommandByName command_name with
  | None => None
  | Some cmd => list_find (λ s, is_shortcut_for_command cmd p s) shortcuts
  end.

Definition get_keyboard_shortcut_for_tool (t : option Tool)
    (shortcuts : list Shortcut) : option (nat * Shortcut) :=
  list_find (λ s, bool_decide (type s = ChangeTool) && bool_decide (tool s = t))
    shortcuts.

Definition get_keyboard_shortcut_for_quicktool (t : option Tool)
    (shortcuts : list Shortcut) : option (nat * Shortcut) :=
  list_find (λ s, bool_decide (type s = EditorQuicktool) && bool_decide (tool s = t))
    shortcuts.

Definition get_keyboard_shortcut_for_spriteeditor (action_name : string)
    (shortcuts : list Shortcut) : option (nat * Shortcut) :=
  list_find (λ s, bool_decide (type s = SpriteEditor) &&
                  bool_decide (action s = action_name))
    shortcuts.

(** *** Registration

    Each function returns the new contents of [shortcuts] and the
    accelerator of the shortcut it registered the keys on. *)

Definition add_keyboard_shortcut_to_execute_command (shortcut_string : string)
    (command_name : string) (p : option Params) (keyContext : KeyContext)
    (shortcuts : list Shortcut) : list Shortcut * option Accelerator :=
  let '(i, shortcut, shortcuts) :=
    match get_keyboard_shortcut_for_command command_name p shortcuts with
    | Some (i, shortcut) => (i, shortcut, shortcuts)
    | None =>
        let shortcut := Shortcut_new ExecuteCommand in
        let shortcut := set_command (getCommandByName command_name) shortcut in
        (* params ? params->clone(): new Params *)
        let shortcut := set_params (Some (default ∅ p)) shortcut in
        let shortcut := set_keycontext keyContext shortcut in
        (length shortcuts, shortcut, shortcuts ++ [shortcut])
    end in
  let shortcut := add_shortcut shortcut_string shortcut in
  (<[i := shortcut]> shortcuts, accel shortcut).

Definition add_keyboard_shortcut_to_change_tool (shortcut_string : string)
    (t : option Tool) (shortcuts : list Shortcut)
    : list Shortcut * option Accelerator :=
  let '(i, shortcut, shortcuts) :=
    match get_keyboard_shortcut_for_tool t shortcuts with
    | Some (i, shortcut) => (i, shortcut, shortcuts)
    | None =>
        let shortcut := Shortcut_new ChangeTool in
        let shortcut := set_tool t shortcut in
        (length shortcuts, shortcut, shortcuts ++ [shortcut])
    end in
  let shortcut := add_shortcut shortcut_string shortcut in
  (<[i := shortcut]> shortcuts, accel shortcut).

Definition add_keyboard_shortcut_to_quicktool (shortcut_string : string)
    (t : option Tool) (shortcuts : list Shortcut)
    : list Shortcut * option Accelerator :=
  let '(i, shortcut, shortcuts) :=
    match get_keyboard_shortcut_for_quicktool t shortcuts with
    | Some (i, shortcut) => (i, shortcut, shortcuts)
    | None =>
        let shortcut := Shortcut_new EditorQuicktool in
        let shortcut := set_tool t shortcut in
        (length shortcuts, shortcut, shortcuts ++ [shortcut])
    end in
  let shortcut := add_shortcut shortcut_string shortcut in
  (<[i := shortcut]> shortcuts, accel shortcut).

Definition add_keyboard_shortcut_to_spriteeditor (shortcut_string : string)
    (action_name : string) (shortcuts : list Shortcut)
    : list Shortcut * option Accelerator :=
  let '(i, shortcut, shortcuts) :=
    match get_keyboard_shortcut_for_spriteeditor action_name shortcuts with
    | Some (i, shortcut) => (i, shortcut, shortcuts)
    | None =>
        let shortcut := Shortcut_new SpriteEditor in
        let shortcut := set_action action_name shortcut in
        (length shortcuts, shortcut, shortcuts ++ [shortcut])
    end in
  let shortcut := add_shortcut shortcut_string shortcut in
  (<[i := shortcut]> shortcuts, accel shortcut).

(** [get_command_from_key_message]: [None] is [return false]; otherwise the
    values written through [command] and [params]. *)
Fixpoint get_command_from_key_message (env : Env) (msg : KeyMessage)
    (shortcuts : list Shortcut) : option (option Command * option Params) :=
  match shortcuts with
  | [] => None
  | shortcut :: rest =>
      if bool_decide (type shortcut = ExecuteCommand) && is_pressed env msg shortcut
      then Some (command shortcut, params shortcut)
      else get_command_from_key_message env msg rest
  end.

(** *** Accessors of the accelerators *)

Definition get_accel_to_execute_command (command_name : string)
    (p : option Params) (shortcuts : list Shortcut) : option Accelerator :=
  match get_keyboard_shortcut_for_command command_name p shortcuts with
  | Some (_, shortcut) => accel shortcut
  | None => None
  end.

Definition get_accel_to_change_tool (t : option Tool)
    (shortcuts : list Shortcut) : option Accelerator :=
  match get_keyboard_shortcut_for_tool t shortcuts with
  | Some (_, shortcut) => accel shortcut
  | None => None
  end.

(** The seven accessors of the sprite editor actions have one body, with the
    name of the action as the only difference. *)
Definition get_accel_to_spriteeditor (action_name : string)
    (shortcuts : list Shortcut) : option Accelerator :=
  match get_keyboard_shortcut_for_spriteeditor action_name shortcuts with
  | Some (_, shortcut) => accel shortcut
  | None => None
  end.

Definition get_accel_to_copy_selection :=
  get_accel_to_spriteeditor SPRITEDITOR_ACTION_COPYSELECTION.
Definition get_accel_to_snap_to_grid :=
  get_accel_to_spriteeditor SPRITEDITOR_ACTION_SNAPTOGRID.
Definition get_accel_to_angle_snap :=
  get_accel_to_spriteeditor SPRITEDITOR_ACTION_ANGLESNAP.
Definition get_accel_to_maintain_aspect_ratio :=
  get_accel_to_spriteeditor SPRITEDITOR_ACTION_MAINTAINASPECTRATIO.
Definition get_accel_to_lock_axis :=
  get_accel_to_spriteeditor SPRITEDITOR_ACTION_LOCKAXIS.
Definition get_accel_to_add_selection :=
  get_accel_to_spriteeditor SPRITEDITOR_ACTION_ADDSEL.
Definition get_accel_to_subtract_selection :=
  get_accel_to_spriteeditor SPRITEDITOR_ACTION_SUBSEL.

(** *** [get_selected_quicktool] *)

(** The loop over the tool box: the first tool that has a quick tool
    shortcut which is pressed in the key array. *)
Fixpoint quicktool_scan (env : Env) (shortcuts : list Shortcut)
    (tools : list Tool) : option Tool :=
  match tools with
  | [] => None
  | t :: rest =>
      match get_keyboard_shortcut_for_quicktool (Some t) shortcuts with
      | Some (_, shortcut) =>
          if is_pressed_from_key_array env shortcut then Some t
          else quicktool_scan env shortcuts rest
      | None => quicktool_scan env shortcuts rest
      end
  end.

Definition get_selected_quicktool (env : Env) (shortcuts : list Shortcut)
    (currentTool : option Tool) : option Tool :=
  let copy_selection_held :=
    match currentTool with
    | Some t =>
        inkIsSelection env t &&
        match get_accel_to_copy_selection shortcuts with
        | Some copyselection_accel =>
            checkFromAllegroKeyArray copyselection_accel (keyArray env)
        | None => false
        end
    | None => false
    end in
  if copy_selection_held then None
  else quicktool_scan env shortcuts (toolbox env).

(** *** [CustomizedGuiManager::onProcessMessage], case [kKeyDownMessage] *)

(** "If there is a foreground window as top level...": the test that leaves
    the case before any shortcut is looked at. *)
Definition foreground_window_on_top (env : Env) : bool :=
  match getTopWindow env with
  | Some toplevel_window =>
      bool_decide (win_id toplevel_window ≠ getMainWindow env) &&
      isForeground toplevel_window
  | None => false
  end.

(** The first loop of the [ChangeTool] case: [possibles], in the order of the
    tool box. *)
Fixpoint collect_possibles (env : Env) (msg : KeyMessage)
    (shortcuts : list Shortcut) (tools : list Tool) : list Tool :=
  match tools with
  | [] => []
  | t :: rest =>
      match get_keyboard_shortcut_for_tool (Some t) shortcuts with
      | Some (_, shortcut) =>
          if is_pressed env msg shortcut
          then t :: collect_possibles env msg shortcuts rest
          else collect_possibles env msg shortcuts rest
      | None => collect_possibles env msg shortcuts rest
      end
  end.

(** The rest of the [ChangeTool] case: the value of [select_this_tool] when
    [ToolBar::selectTool] is called.  [shortcut] is the shortcut that the
    outer loop found pressed. *)
Definition select_this_tool (env : Env) (shortcut : Shortcut)
    (possibles : list Tool) : option Tool :=
  let current_tool := getCurrentTool env in
  if bool_decide (2 ≤ length possibles) then
    match list_find (λ t, t ≠ current_tool ∧ isToolVisible env t) possibles with
    | Some (_, t) => Some t
    | None =>
        match list_find (λ t, t = current_tool) possibles with
        | Some (i, _) => possibles !! ((i + 1) `mod` length possibles)
        | None => tool shortcut
        end
    end
  else tool shortcut.

(** The loop over the children of the manager in the [ExecuteCommand] case:
    [true] when the command is executed. *)
Fixpoint main_window_reached (env : Env) (children : list Window) : bool :=
  match children with
  | [] => false
  | child :: rest =>
      if isForeground child then false
      else if isDesktop child && bool_decide (win_id child = getMainWindow env)
      then true
      else main_window_reached env rest
  end.

Definition onProcessMessage_KeyDown (env : Env) (msg : KeyMessage)
    (shortcuts : list Shortcut) : list Effect * Outcome :=
  if foreground_window_on_top env then ([], DefaultProcessing)
  else
    match list_find (λ s, is_pressed env msg s) shortcuts with
    | None => ([], DefaultProcessing)
    | Some (_, shortcut) =>
        match type shortcut with
        | ChangeTool =>
            let possibles := collect_possibles env msg shortcuts (toolbox env) in
            ([CancelMenuLoop; SelectTool (select_this_tool env shortcut possibles)],
             ReturnTrue)
        | ExecuteCommand =>
            if main_window_reached env (getChildren env)
            then ([CancelMenuLoop; ExecCommand (command shortcut) (params shortcut)],
                  ReturnTrue)
            else ([CancelMenuLoop], DefaultProcessing)
        | EditorQuicktool => ([CancelMenuLoop], DefaultProcessing)
        | SpriteEditor => ([CancelMenuLoop], DefaultProcessing)
        end
    end.

(** *** The history of the registry

    [shortcuts] is empty after [init_module_gui] and is changed by the four
    registration functions only. *)
Inductive Registration :=
  | RegExecuteCommand (shortcut_string command_name : string)
      (p : option Params) (keyContext : KeyContext)
  | RegChangeTool (shortcut_string : string) (t : option Tool)
  | RegQuicktool (shortcut_string : string) (t : option Tool)
  | RegSpriteEditor (shortcut_string action_name : string).

Definition register (shortcuts : list Shortcut) (r : Registration)
    : list Shortcut :=
  match r with
  | RegExecuteCommand str name p kc =>
      (add_keyboard_shortcut_to_execute_command str name p kc shortcuts).1
  | RegChangeTool str t => (add_keyboard_shortcut_to_change_tool str t shortcuts).1
  | RegQuicktool str t => (add_keyboard_shortcut_to_quicktool str t shortcuts).1
  | RegSpriteEditor str a => (add_keyboard_shortcut_to_spriteeditor str a shortcuts).1
  end.

Definition registry_of (history : list Registration) : list Shortcut :=
  foldl register [] history.

(** ** Notions of the specification *)

Implicit Types (env : Env) (msg : KeyMessage) (s : Shortcut).
Implicit Types (shortcuts pre post : list Shortcut).

(** The accelerator of a shortcut matches a key message. *)
Definition accel_matches_message s msg : Prop :=
  ∃ a, accel s = Some a ∧
       check a (keyModifiers msg) (scancode msg) (unicodeChar msg) = true.

(** The accelerator of a shortcut matches the keys that are held. *)
Definition accel_matches_key_array s (key : KeyArray) : Prop :=
  ∃ a, accel s = Some a ∧ checkFromAllegroKeyArray a key = true.

(** The context test that both matches share. *)
Definition context_allows env s : Prop :=
  keycontext s = Any ∨ keycontext s = get_current_keycontext env.

(** [s] is the first shortcut of [shortcuts], in the order of registration,
    that is pressed by [msg]. *)
Definition first_hit env msg shortcuts pre s post : Prop :=
  shortcuts = pre ++ s :: post ∧
  Forall (λ x, is_pressed env msg x = false) pre ∧
  is_pressed env msg s = true.

(** The walk from the top of the window stack comes to the main desktop
    window, and no window down to it is a foreground window. *)
Definition reaches_main_window env : Prop :=
  ∃ i w, getChildren env !! i = Some w ∧
         isDesktop w = true ∧ win_id w = getMainWindow env ∧
         ∀ j w', j ≤ i → getChildren env !! j = Some w' → isForeground w' = false.

(** The walk meets a foreground window, and no window above it is the main
    desktop window. *)
Definition foreground_window_first env : Prop :=
  ∃ j w, getChildren env !! j = Some w ∧ isForeground w = true ∧
         ∀ i w', i < j → getChildren env !! i = Some w' →
                 ¬ (isDesktop w' = true ∧ win_id w' = getMainWindow env).

(** The calls of [UIContext::executeCommand] among the effects. *)
Definition executions (effects : list Effect)
    : list (option Command * option Params) :=
  omap (λ e, match e with ExecCommand c p => Some (c, p) | _ => None end) effects.

(** The calls of [ToolBar::selectTool] among the effects. *)
Definition selections (effects : list Effect) : list (option Tool) :=
  omap (λ e, match e with SelectTool t => Some t | _ => None end) effects.

(** The current tool has a selection ink and the accelerator of the
    [CopySelection] shortcut matches the keys that are held. *)
Definition copy_selection_held env shortcuts (currentTool : option Tool) : Prop :=
  ∃ t i s,
    currentTool = Some t ∧ inkIsSelection env t = true ∧
    get_keyboard_shortcut_for_spriteeditor
      SPRITEDITOR_ACTION_COPYSELECTION shortcuts = Some (i, s) ∧
    accel_matches_key_array s (keyArray env).

(** The quick tool shortcut of tool [t] is pressed in the key array. *)
Definition quicktool_pressed env shortcuts (t : Tool) : Prop :=
  ∃ i s, get_keyboard_shortcut_for_quicktool (Some t) shortcuts = Some (i, s) ∧
         is_pressed_from_key_array env s = true.

(** The registry has a quick tool shortcut of tool [t] that is pressed in
    the key array. *)
Definition quicktool_shortcut_pressed env shortcuts (t : Tool) : Prop :=
  Exists (λ s, type s = EditorQuicktool ∧ tool s = Some t ∧
               is_pressed_from_key_array env s = true) shortcuts.

(** The current tool has a selection ink, and the registry has a shortcut
    of the sprite editor action [CopySelection] whose accelerator matches
    the keys that are held. *)
Definition copy_selection_shortcut_held env shortcuts
    (currentTool : option Tool) : Prop :=
  ∃ t, currentTool = Some t ∧ inkIsSelection env t = true ∧
       Exists (λ s, type s = SpriteEditor ∧
                    action s = SPRITEDITOR_ACTION_COPYSELECTION ∧
                    accel_matches_key_array s (keyArray env)) shortcuts.

(** The identity of a shortcut.  An [ExecuteCommand] shortcut without a
    command has none. *)
Definition identity_of s : option Identity :=
  match type s with
  | ExecuteCommand =>
      match command s, params s with
      | Some c, Some p => Some (IdCommand c p)
      | _, _ => None
      end
  | ChangeTool => Some (IdTool (tool s))
  | EditorQuicktool => Some (IdQuicktool (tool s))
  | SpriteEditor => Some (IdSpriteEditor (action s))
  end.

(** The identity that a registration is for: none when the name is not the
    name of a command; no parameters count as the empty parameters. *)
Definition registered_identity (r : Registration) : option Identity :=
  match r with
  | RegExecuteCommand _ name p _ =>
      match getCommandByName name with
      | Some c => Some (IdCommand c (default ∅ p))
      | None => None
      end
  | RegChangeTool _ t => Some (IdTool t)
  | RegQuicktool _ t => Some (IdQuicktool t)
  | RegSpriteEditor _ a => Some (IdSpriteEditor a)
  end.

(** The string of keys of a registration. *)
Definition chord_string (r : Registration) : string :=
  match r with
  | RegExecuteCommand str _ _ _ => str
  | RegChangeTool str _ => str
  | RegQuicktool str _ => str
  | RegSpriteEditor str _ => str
  end.

(** No registration of the history is for identity [k]. *)
Definition never_registered (history : list Registration) (k : Identity) : Prop :=
  Forall (λ r, registered_identity r ≠ Some k) history.

(** A key message is the chord that a string of keys describes: the
    accelerator that holds the keys of the string alone matches it. *)
Definition encodes msg (chord : string) : Prop :=
  check (addKeysFromString chord accel_new)
    (keyModifiers msg) (scancode msg) (unicodeChar msg) = true.

(** An accelerator recognizes a chord: it matches the key messages and the
    key arrays that the accelerator with the keys of the string alone
    matches. *)
Definition recognizes (a : Accelerator) (chord : string) : Prop :=
  (∀ m c u, check (addKeysFromString chord accel_new) m c u = true →
            check a m c u = true) ∧
  (∀ key, checkFromAllegroKeyArray (addKeysFromString chord accel_new) key = true →
          checkFromAllegroKeyArray a key = true).

(** What the registry expects of [Accelerator::addKeysFromString]: the keys
    are added to the ones that the accelerator has. *)
Record AcceleratorLaws : Prop := {
  check_kept : ∀ str a m c u,
    check a m c u = true → check (addKeysFromString str a) m c u = true;
  checkFromAllegroKeyArray_kept : ∀ str a key,
    checkFromAllegroKeyArray a key = true →
    checkFromAllegroKeyArray (addKeysFromString str a) key = true;
  keys_added : ∀ str a, recognizes (addKeysFromString str a) str
}.

(** A [ChangeTool] shortcut of tool [t] is pressed by [msg]. *)
Definition tool_shortcut_pressed env msg shortcuts (t : Tool) : Prop :=
  Exists (λ s, type s = ChangeTool ∧ tool s = Some t ∧
               is_pressed env msg s = true) shortcuts.

#[global] Instance tool_shortcut_pressed_dec env msg shortcuts t :
  Decision (tool_shortcut_pressed env msg shortcuts t).
Proof. unfold tool_shortcut_pressed. apply _. Defined.

(** The tools that the pressed chord stands for, in the order of the tool
    box. *)
Definition candidates env msg shortcuts : list Tool :=
  filter (tool_shortcut_pressed env msg shortcuts) (toolbox env).

(** A candidate that can be preferred: it is not the current tool and the
    tool bar shows it. *)
Definition other_visible_tool env (t : Tool) : Prop :=
  t ≠ getCurrentTool env ∧ isToolVisible env t = true.

#[global] Instance other_visible_tool_dec env t :
  Decision (other_visible_tool env t).
Proof. unfold other_visible_tool. apply _. Defined.

(** The first shortcut with identity [k], as the lookups find it. *)
Definition lookup_identity (k : Identity) shortcuts : option (nat * Shortcut) :=
  list_find (λ s, identity_of s = Some k) shortcuts.

(** The shortcut that a registration adds to the registry when the lookup
    finds none, before the keys are added to it. *)
Definition new_shortcut (r : Registration) : Shortcut :=
  match r with
  | RegExecuteCommand _ name p kc =>
      {| accel := Some accel_new; type := ExecuteCommand;
         command := getCommandByName name; keycontext := kc;
         tool := None; action := ""; params := Some (default ∅ p) |}
  | RegChangeTool _ t =>
      {| accel := Some accel_new; type := ChangeTool; command := None;
         keycontext := Any; tool := t; action := ""; params := None |}
  | RegQuicktool _ t =>
      {| accel := Some accel_new; type := EditorQuicktool; command := None;
         keycontext := Any; tool := t; action := ""; params := None |}
  | RegSpriteEditor _ a =>
      {| accel := Some accel_new; type := SpriteEditor; command := None;
         keycontext := Any; tool := None; action := a; params := None |}
  end.

(** No two shortcuts of the registry have the same identity. *)
Definition unique_identities shortcuts : Prop :=
  ∀ i j s1 s2 k,
    shortcuts !! i = Some s1 → shortcuts !! j = Some s2 →
    identity_of s1 = Some k → identity_of s2 = Some k → i = j.

(** The accessors of the accelerators of the sprite editor actions, each
    with the name of its action. *)
Definition spriteeditor_accessors
    : list (string * (list Shortcut → option Accelerator)) :=
  [ (SPRITEDITOR_ACTION_COPYSELECTION, get_accel_to_copy_selection);
    (SPRITEDITOR_ACTION_SNAPTOGRID, get_accel_to_snap_to_grid);
    (SPRITEDITOR_ACTION_ANGLESNAP, get_accel_to_angle_snap);
    (SPRITEDITOR_ACTION_MAINTAINASPECTRATIO, get_accel_to_maintain_aspect_ratio);
    (SPRITEDITOR_ACTION_LOCKAXIS, get_accel_to_lock_axis);
    (SPRITEDITOR_ACTION_ADDSEL, get_accel_to_add_selection);
    (SPRITEDITOR_ACTION_SUBSEL, get_accel_to_subtract_selection) ].

End Shortcuts.

(** * The rest of the module *)

(** ** [int] values

    An [int] is a [Z] in the range of 32 bits; additions and subtractions
    wrap around. *)
Definition int_range (z : Z) : Prop := (- 2 ^ 31 ≤ z < 2 ^ 31)%Z.
Definition wrap_int (z : Z) : Z := ((z + 2 ^ 31) `mod` 2 ^ 32 - 2 ^ 31)%Z.
Definition int_add (a b : Z) : Z := wrap_int (a + b).
Definition int_sub (a b : Z) : Z := wrap_int (a - b).

(** [gfx::Rect] and [gfx::Point] *)
Record Rect := mkRect { rect_x : Z; rect_y : Z; rect_w : Z; rect_h : Z }.
Record Point := mkPoint { pt_x : Z; pt_y : Z }.

(** The configuration file (app/ini_file.h is not part of this file): the
    embedding is parametric in it.  The getters take the section, the name
    and the default value. *)
Class ConfigOps := {
  Config : Type;
  get_config_int : Config → string → string → Z → Z;
  get_config_bool : Config → string → string → bool → bool;
  get_config_string : Config → string → string → string → string;
  set_config_string : string → string → string → Config → Config;
  get_config_rect : Config → string → string → Rect → Rect;
  set_config_rect : string → string → Rect → Config → Config
}.

(** A widget, as far as the layout functions look at it: its id and the id
    of its root window ([None] when [getRoot()] is [NULL]). *)
Record Widget := mkWidget {
  getId : string;
  getRoot : option string
}.

(** The current theme, as far as this file writes it. *)
Record Theme := mkTheme { guiscale : Z }.

(** What the functions of the screen do to their collaborators. *)
Inductive GuiEffect :=
  | ErrorMessage (text : string)
  | CreateClipboard
  | CreateManager
  | SetTheme
  | Maximize
  | SetupScreen (reload_font : bool)
  | SetScale (scale : Z)
  | SetDisplay
  | ReloadDefaultFont
  | RegenerateTheme
  | ReinitThemeForAllWidgets
  | SaveGuiConfig.

(** A message of the manager, as far as [onProcessMessage] looks at it. *)
Inductive Message :=
  | kCloseAppMessage
  | kDropFilesMessage (files : list string)
  | kQueueProcessingMessage
  | kKeyDownMessage (msg : KeyMessage)
  | kOtherMessage.

(** What [onProcessMessage] does: the effects of the key-down case, and the
    call of [gui_feedback]. *)
Inductive ManagerEffect :=
  | Handled (e : Effect)
  | GuiFeedback.

(** The table [try_resolutions], with the entry of width 0 that ends it. *)
Definition try_resolutions : list (Z * Z * Z) :=
  [ (1024, 768, 2); (800, 600, 2); (640, 480, 2);
    (320, 240, 1); (320, 200, 1); (0, 0, 0) ]%Z.

Section Gui.

Context `{AO : AcceleratorOps} `{CO : ConfigOps}.

(** [CommandsModule::instance()->getCommandByName] *)
Variable getCommandByName : string → option Command.

(** The constants [CommandId::Exit] and [CommandId::OpenFile]
    (app/commands/commands.h is not part of this file). *)
Variable CommandId_Exit CommandId_OpenFile : string.

(** The macro [MID] comes with the headers that this file includes. *)
Variable MID : Z → Z → Z → Z.

(** [jguiscale()], which reads the current theme. *)
Variable jguiscale : Theme → Z.

(** [she::Display], and [she::instance()->createDisplay(w, h, scale)]:
    [None] when it throws [DisplayCreationException], the display that it
    returns otherwise. *)
Variable Display : Type.
Variable createDisplay : Z → Z → Z → option Display.

(** *** The graphics configuration *)

Record GfxConfig := mkGfxConfig {
  gfx_w : Z;
  gfx_h : Z;
  gfx_maximized : bool;
  gfx_screen_scaling : Z
}.

(** [load_gui_config]: [w], [h] and [maximized] are the reference
    parameters, [screen_scaling] is the variable of the module. *)
Definition load_gui_config (cfg : Config) : GfxConfig :=
  let w := get_config_int cfg "GfxMode" "Width" 0 in
  let h := get_config_int cfg "GfxMode" "Height" 0 in
  let screen_scaling := get_config_int cfg "GfxMode" "ScreenScale" 2 in
  let screen_scaling := MID 1 screen_scaling 4 in
  let maximized := get_config_bool cfg "GfxMode" "Maximized" false in
  {| gfx_w := w; gfx_h := h; gfx_maximized := maximized;
     gfx_screen_scaling := screen_scaling |}.

(** *** [init_module_gui] *)

(** The loop over [try_resolutions]: the display of the first resolution
    that can be created, with the scale of the resolution. *)
Fixpoint try_resolutions_loop (table : list (Z * Z * Z))
    : option (Display * Z) :=
  match table with
  | [] => None
  | (width, height, scale) :: rest =>
      if (width =? 0)%Z then None
      else
        match createDisplay width height scale with
        | Some main_display => Some (main_display, scale)
        | None => try_resolutions_loop rest
        end
  end.

Record GuiInit := mkGuiInit {
  init_result : Z;
  init_shortcuts : list Shortcut;
  init_main_display : option Display;
  init_screen_scaling : Z;
  init_effects : list GuiEffect
}.

Definition init_module_gui (cfg : Config) : GuiInit :=
  let shortcuts : list Shortcut := [] in
  let config := load_gui_config cfg in
  let w := gfx_w config in
  let h := gfx_h config in
  let screen_scaling := gfx_screen_scaling config in
  let main_display :=
    if (0 <? w)%Z && (0 <? h)%Z then createDisplay w h screen_scaling
    else None in
  let '(main_display, screen_scaling) :=
    match main_display with
    | Some d => (Some d, screen_scaling)
    | None =>
        match try_resolutions_loop try_resolutions with
        | Some (d, scale) => (Some d, scale)
        | None => (None, screen_scaling)
        end
    end in
  match main_display with
  | None =>
      {| init_result := -1; init_shortcuts := shortcuts;
         init_main_display := None; init_screen_scaling := screen_scaling;
         init_effects :=
           [ErrorMessage "Unable to create a user-interface display.\n"] |}
  | Some d =>
      {| init_result := 0; init_shortcuts := shortcuts;
         init_main_display := Some d; init_screen_scaling := screen_scaling;
         init_effects :=
           [CreateClipboard; CreateManager; SetTheme] ++
           (if gfx_maximized config then [Maximize] else []) ++
           [SetupScreen true; SaveGuiConfig] |}
  end.

(** The display of an entry of the table cannot be created. *)
Definition fails (e : Z * Z * Z) : Prop :=
  createDisplay e.1.1 e.1.2 e.2 = None.

(** The display that the configuration asks for cannot be created. *)
Definition configured_fails (cfg : Config) : Prop :=
  let config := load_gui_config cfg in
  (0 < gfx_w config)%Z → (0 < gfx_h config)%Z →
  createDisplay (gfx_w config) (gfx_h config) (gfx_screen_scaling config) = None.

(** *** [gui_setup_screen]

    [display_w] and [display_h] are [ui::display_w()] and
    [ui::display_h()] once the display is set. *)
Definition gui_setup_screen (theme : Theme) (screen_scaling : Z)
    (display_w display_h : Z) (reload_font : bool) : Theme * list GuiEffect :=
  let regen := false in
  let reinit := false in
  let old_guiscale := jguiscale theme in
  let theme :=
    {| guiscale :=
         if (screen_scaling =? 1)%Z && (512 <? display_w)%Z && (256 <? display_h)%Z
         then 2%Z else 1%Z |} in
  let '(reload_font, regen) :=
    if negb (old_guiscale =? jguiscale theme)%Z then (true, true)
    else (reload_font, regen) in
  let reinit := if reload_font then true else reinit in
  let reinit := if regen then true else reinit in
  (theme,
   [SetScale screen_scaling; SetDisplay] ++
   (if reload_font then [ReloadDefaultFont] else []) ++
   (if regen then [RegenerateTheme] else []) ++
   (if reinit then [ReinitThemeForAllWidgets] else []) ++
   [SaveGuiConfig]).

(** *** The positions of the windows *)

(** [load_window_pos]: the new bounds of a window with bounds [bounds]. *)
Definition load_window_pos (cfg : Config) (display_w display_h : Z)
    (bounds : Rect) (section : string) : Rect :=
  let orig_pos := bounds in
  let pos := orig_pos in
  let pos := get_config_rect cfg section "WindowPos" pos in
  let w := MID (rect_w orig_pos) (rect_w pos) display_w in
  let h := MID (rect_h orig_pos) (rect_h pos) display_h in
  let pos := mkRect (rect_x pos) (rect_y pos) w h in
  let x := MID 0 (rect_x pos) (int_sub display_w (rect_w pos)) in
  let y := MID 0 (rect_y pos) (int_sub display_h (rect_h pos)) in
  mkRect x y (rect_w pos) (rect_h pos).

(** [save_window_pos] *)
Definition save_window_pos (cfg : Config) (bounds : Rect) (section : string)
    : Config :=
  set_config_rect section "WindowPos" bounds cfg.

(** *** The layouts of the widgets *)

(** [CustomizedGuiManager::loadLayout] *)
Definition loadLayout (cfg : Config) (widget : Widget) : string :=
  match getRoot widget with
  | None => ""
  | Some rootId =>
      get_config_string cfg ("layout:" +:+ rootId) (getId widget) ""
  end.

(** [CustomizedGuiManager::saveLayout] *)
Definition saveLayout (cfg : Config) (widget : Widget) (str : string) : Config :=
  match getRoot widget with
  | None => cfg
  | Some rootId =>
      set_config_string ("layout:" +:+ rootId) (getId widget) str cfg
  end.

(** *** [CustomizedGuiManager::onProcessMessage] *)

(** The loop of the [kDropFilesMessage] case: one [params] object for all
    the files. *)
Fixpoint open_dropped_files (cmd_open_file : option Command) (p : Params)
    (files : list string) : list ManagerEffect :=
  match files with
  | [] => []
  | file :: rest =>
      let p := <["filename" := file]> p in
      Handled (ExecCommand cmd_open_file (Some p)) ::
      open_dropped_files cmd_open_file p rest
  end.

(** [foreground] is [getForegroundWindow()]; the last component says how
    the function ends, as for the key-down case. *)
Definition onProcessMessage (env : Env) (foreground : option nat)
    (m : Message) (shortcuts : list Shortcut) : list ManagerEffect * Outcome :=
  match m with
  | kCloseAppMessage =>
      let command := getCommandByName CommandId_Exit in
      ([Handled (ExecCommand command None)], DefaultProcessing)
  | kDropFilesMessage files =>
      if bool_decide (foreground ≠ Some (getMainWindow env))
      then ([], DefaultProcessing)
      else
        let cmd_open_file := getCommandByName CommandId_OpenFile in
        (open_dropped_files cmd_open_file ∅ files, DefaultProcessing)
  | kQueueProcessingMessage => ([GuiFeedback], DefaultProcessing)
  | kKeyDownMessage msg =>
      let '(effects, outcome) := onProcessMessage_KeyDown env msg shortcuts in
      (Handled <$> effects, outcome)
  | kOtherMessage => ([], DefaultProcessing)
  end.

(** *** What the functions expect of their collaborators *)

(** For bounds in order, [MID] is the value in the middle: the definitions
    of the macro agree on it. *)
Definition MID_law : Prop :=
  ∀ x y z : Z, (x ≤ z)%Z → MID x y z = Z.max x (Z.min y z).

(** [jguiscale()] answers the scale of the current theme. *)
Definition jguiscale_law : Prop :=
  ∀ theme, jguiscale theme = guiscale theme.

(** The configuration answers the rectangle, or the string, that was set
    under the same section and name. *)
Definition config_rect_law : Prop :=
  ∀ cfg section name r d,
    get_config_rect (set_config_rect section name r cfg) section name d = r.

Definition config_string_law : Prop :=
  ∀ cfg section name str d,
    get_config_string (set_config_string section name str cfg) section name d = str.

End Gui.

Arguments init_result {_ _} _.
Arguments init_shortcuts {_ _} _.
Arguments init_main_display {_ _} _.
Arguments init_screen_scaling {_ _} _.
Arguments init_effects {_ _} _.
Arguments try_resolutions_loop {_} _ _.
Arguments init_module_gui {_ _} _ {_} _ _.
Arguments fails {_} _ _.
Arguments configured_fails {_} _ {_} _ _.

(** ** The symmetries of the strokes (app/tools/symmetries.cpp) *)

(** A [Stroke] is the list of its points, in the order of [addPoint]. *)
Definition Stroke : Type := list Point.

(** The loops over [mainStroke]: the points of [stroke2].  The axis ([m_x],
    [m_y]) and the coordinates are [int] values. *)
Definition mirror_x (m_x adjust : Z) (pt : Point) : Point :=
  mkPoint (int_sub m_x (int_add (int_sub (pt_x pt) m_x) adjust)) (pt_y pt).

Definition mirror_y (m_y adjust : Z) (pt : Point) : Point :=
  mkPoint (pt_x pt) (int_sub m_y (int_add (int_sub (pt_y pt) m_y) adjust)).

(** [HorizontalSymmetry::generateStrokes]; [brush_w] is
    [loop->getBrush()->bounds().w]. *)
Definition HorizontalSymmetry_generateStrokes (m_x : Z) (brush_w : Z)
    (mainStroke : Stroke) (strokes : list Stroke) : list Stroke :=
  let adjust := Z.rem brush_w 2 in
  let strokes := strokes ++ [mainStroke] in
  let stroke2 := foldl (λ stroke2 pt, stroke2 ++ [mirror_x m_x adjust pt])
                   [] mainStroke in
  strokes ++ [stroke2].

(** [VerticalSymmetry::generateStrokes]; [brush_h] is
    [loop->getBrush()->bounds().h]. *)
Definition VerticalSymmetry_generateStrokes (m_y : Z) (brush_h : Z)
    (mainStroke : Stroke) (strokes : list Stroke) : list Stroke :=
  let adjust := Z.rem brush_h 2 in
  let strokes := strokes ++ [mainStroke] in
  let stroke2 := foldl (λ stroke2 pt, stroke2 ++ [mirror_y m_y adjust pt])
                   [] mainStroke in
  strokes ++ [stroke2].

(** ** The accelerator that a registration hands to its caller *)

Section Registered.

Context `{AO : AcceleratorOps}.
Variable getCommandByName : string → option Command.

Definition registered_accel (shortcuts : list Shortcut) (r : Registration)
    : option Accelerator :=
  match r with
  | RegExecuteCommand str name p kc =>
      (add_keyboard_shortcut_to_execute_command getCommandByName
         str name p kc shortcuts).2
  | RegChangeTool str t => (add_keyboard_shortcut_to_change_tool str t shortcuts).2
  | RegQuicktool str t => (add_keyboard_shortcut_to_quicktool str t shortcuts).2
  | RegSpriteEditor str a => (add_keyboard_shortcut_to_spriteeditor str a shortcuts).2
  end.

End Registered.

(** ** A small accelerator, for the examples

    A chord is a pair of modifiers and scancode; the chord of a string has
    modifier 2 when the string starts with [Ctrl+], and the code of the last
    character of the string as scancode.  The accelerator matches a key
    message that has the modifiers and the scancode of one of its chords, and
    matches the key array when the scancode of one of its chords is held. *)

Definition toy_chord (s : string) : Z * Z :=
  ((if String.prefix "Ctrl+" s then 2 else 0)%Z,
   match String.get (String.length s - 1) s with
   | Some c => Z.of_nat (Ascii.nat_of_ascii c)
   | None => 0%Z
   end).

Definition toy_check (a : list (Z * Z)) (m k u : Z) : bool :=
  existsb (λ c, Z.eqb c.1 m && Z.eqb c.2 k) a.

Definition toy_checkFromAllegroKeyArray (a : list (Z * Z)) (key : KeyArray) : bool :=
  existsb (λ c, key c.2) a.

Definition toy_accelerator : AcceleratorOps :=
  {| Accelerator := list (Z * Z);
     accel_new := [];
     addKeysFromString := λ s a, a ++ [toy_chord s];
     check := toy_check;
     checkFromAllegroKeyArray := toy_checkFromAllegroKeyArray |}.

(** The commands of the examples: [NewFile] is command 1, [OpenFile] is
    command 2, and there is no other command. *)
Definition toy_commands (name : string) : option Command :=
  if bool_decide (name = "NewFile") then Some 1
  else if bool_decide (name = "OpenFile") then Some 2
  else None.

(** Key messages of the examples. *)
Definition key_Ctrl_N : KeyMessage := mkKeyMessage 2 78 0.
Definition key_B : KeyMessage := mkKeyMessage 0 66 98.

(** The main window (window 0) and a foreground window (window 7). *)
Definition toy_main_window : Window := mkWindow 0 false true.
Definition toy_dialog : Window := mkWindow 7 true false.

(** An application state without document and with three tools, none of
    them with a selection ink, and no key held down. *)
Definition toy_state (current : Tool) (visible : Tool → bool)
    (children : list Window) : Env :=
  {| activeDocument := None;
     getCurrentTool := current;
     inkIsSelection := λ _, false;
     toolbox := [1; 2; 3];
     isToolVisible := visible;
     getChildren := children;
     getMainWindow := 0;
     keyArray := λ _, false |}.

(** The main window alone, tool 1 current, all tools shown. *)
Definition toy_env : Env := toy_state 1 (λ _, true) [toy_main_window].

(** Tool 3 is the current tool and the only tool that the tool bar shows. *)
Definition toy_env_hidden : Env :=
  toy_state 3 (λ t, bool_decide (t = 3)) [toy_main_window].

(** A foreground window above the main window. *)
Definition toy_env_modal : Env :=
  toy_state 1 (λ _, true) [toy_dialog; toy_main_window].

(** A document with a visible mask, the current tool with a selection ink,
    and the key with scancode 67 ([C]) held down. *)
Definition toy_env_selection : Env :=
  {| activeDocument := Some (mkDocument true);
     getCurrentTool := 1;
     inkIsSelection := λ _, true;
     toolbox := [1; 2; 3];
     isToolVisible := λ _, true;
     getChildren := [toy_main_window];
     getMainWindow := 0;
     keyArray := λ k, Z.eqb k 67 |}.

(** Tools 1 and 2 on the key [B]. *)
Definition toy_tool_history : list Registration :=
  [RegChangeTool "B" (Some 1); RegChangeTool "B" (Some 2)].

Definition toy_tool_shortcut (t : Tool) : @Shortcut toy_accelerator :=
  @mkShortcut toy_accelerator (Some [(0, 66)%Z]) ChangeTool None Any (Some t) "" None.

(** The quick tool 2 on the key [B], registered before a command and a tool
    on the same key. *)
Definition toy_quicktool_history : list Registration :=
  [RegQuicktool "B" (Some 2); RegExecuteCommand "B" "OpenFile" None Any;
   RegChangeTool "B" (Some 1)].

Definition toy_quicktool_shortcut : @Shortcut toy_accelerator :=
  @mkShortcut toy_accelerator (Some [(0, 66)%Z]) EditorQuicktool None Any (Some 2) "" None.

Definition toy_openfile_shortcut : @Shortcut toy_accelerator :=
  @mkShortcut toy_accelerator (Some [(0, 66)%Z]) ExecuteCommand (Some 2) Any None ""
    (Some ∅).

(** The command [NewFile] on [Ctrl+N]. *)
Definition toy_command_history : list Registration :=
  [RegExecuteCommand "Ctrl+N" "NewFile" None Any].

Definition toy_newfile_shortcut : @Shortcut toy_accelerator :=
  @mkShortcut toy_accelerator (Some [(2, 78)%Z]) ExecuteCommand (Some 1) Any None ""
    (Some ∅).

(** ** Collaborators of the screen functions, for the examples *)

(** The macro [MID] as the value in the middle of the three. *)
Definition toy_MID (x y z : Z) : Z :=
  if (y <? x)%Z then (if (z <? y)%Z then y else if (z <? x)%Z then z else x)
  else (if (z <? y)%Z then (if (x <? z)%Z then z else x) else y).

(** A configuration that keeps the integers, the truth values, the strings
    and the rectangles in maps from section and name. *)
Record toy_Config := mkToyConfig {
  toy_ints : gmap (string * string) Z;
  toy_bools : gmap (string * string) bool;
  toy_strings : gmap (string * string) string;
  toy_rects : gmap (string * string) Rect
}.

Definition toy_config : ConfigOps :=
  {| Config := toy_Config;
     get_config_int := λ cfg section name d,
       default d (toy_ints cfg !! (section, name));
     get_config_bool := λ cfg section name d,
       default d (toy_bools cfg !! (section, name));
     get_config_string := λ cfg section name d,
       default d (toy_strings cfg !! (section, name));
     set_config_string := λ section name str cfg,
       mkToyConfig (toy_ints cfg) (toy_bools cfg)
         (<[(section, name) := str]> (toy_strings cfg)) (toy_rects cfg);
     get_config_rect := λ cfg section name d,
       default d (toy_rects cfg !! (section, name));
     set_config_rect := λ section name r cfg,
       mkToyConfig (toy_ints cfg) (toy_bools cfg) (toy_strings cfg)
         (<[(section, name) := r]> (toy_rects cfg)) |}.

(** A configuration that asks for a display of 1280 by 1024 with scale 9. *)
Definition toy_gfx_config : toy_Config :=
  mkToyConfig
    (<[("GfxMode", "Width") := 1280%Z]>
       (<[("GfxMode", "Height") := 1024%Z]>
          (<[("GfxMode", "ScreenScale") := 9%Z]> ∅)))
    ∅ ∅ ∅.

(** Displays up to 640 by 480 can be created, and a display stands for the
    arguments it was created with; no display can be created. *)
Definition toy_createDisplay (w h scale : Z) : option (Z * Z * Z) :=
  if (w <=? 640)%Z && (h <=? 480)%Z then Some (w, h, scale) else None.

Definition toy_no_display (w h scale : Z) : option (Z * Z * Z) := None.

(** A widget with a root window, and one without. *)
Definition toy_widget : Widget := mkWidget "timeline" (Some "main_window").
Definition toy_orphan : Widget := mkWidget "timeline" None.

(** The quick tool 2 and the copy selection, both on the key [C]. *)
Definition toy_copy_history : list Registration :=
  [RegQuicktool "C" (Some 2); RegSpriteEditor "C" "CopySelection"].

Definition toy_copy_shortcut : @Shortcut toy_accelerator :=
  @mkShortcut toy_accelerator (Some [(0, 67)%Z]) SpriteEditor None Any None
    "CopySelection" None.

(** * Properties *)

Section Properties.

Context `{AO : AcceleratorOps}.
Variable getCommandByName : string → option Command.

Implicit Types (env : Env) (msg : KeyMessage) (s : Shortcut).
Implicit Types (shortcuts pre post : list Shortcut).

(** ** The key context and the test of one shortcut *)

(** C6: the key context is [Selection] exactly when there is an active
    document, its mask is visible and the ink of the current tool is a
    selection ink; in every other case, also without a document, it is
    [Normal]. *)
Theorem get_current_keycontext_spec env :
  let selecting :=
    ∃ doc, activeDocument env = Some doc ∧ isMaskVisible doc = true ∧
           inkIsSelection env (getCurrentTool env) = true in
  (get_current_keycontext env = Selection ↔ selecting) ∧
  (get_current_keycontext env = Normal ↔ ¬ selecting) ∧
  (activeDocument env = None → get_current_keycontext env = Normal).
Proof.
  unfold get_current_keycontext.
  destruct (activeDocument env) as [doc|] eqn:Hdoc; simpl.
  - destruct (isMaskVisible doc) eqn:Hm,
      (inkIsSelection env (getCurrentTool env)) eqn:Hi; simpl;
      (split_and!; [split | split | done]);
      try done; try (intros _; exists doc; done);
      try (intros [doc' (Heq & Hm' & Hi')]; simplify_eq; congruence);
      try (intros Hn; exfalso; apply Hn; exists doc; done);
      try (intros _ [doc' (Heq & Hm' & Hi')]; simplify_eq; congruence).
  - split_and!; [split | split | done]; try done.
    + intros [doc' (Heq & _)]; done.
    + intros _ [doc' (Heq & _)]; done.
Qed.

Lemma context_filter_spec env s (res : bool) :
  (if res && bool_decide (keycontext s ≠ Any)
          && bool_decide (keycontext s ≠ get_current_keycontext env)
   then false else res) = true ↔ res = true ∧ context_allows env s.
Proof.
  unfold context_allows.
  destruct res; simpl; [|naive_solver].
  destruct (decide (keycontext s = Any)) as [HA|HA],
    (decide (keycontext s = get_current_keycontext env)) as [HC|HC].
  - rewrite (bool_decide_eq_false_2 (keycontext s ≠ Any)) by tauto. naive_solver.
  - rewrite (bool_decide_eq_false_2 (keycontext s ≠ Any)) by tauto. naive_solver.
  - rewrite (bool_decide_eq_true_2 (keycontext s ≠ Any)) by done.
    rewrite (bool_decide_eq_false_2 (keycontext s ≠ _)) by tauto. naive_solver.
  - rewrite !bool_decide_eq_true_2 by done. naive_solver.
Qed.

Lemma is_pressed_iff env msg s :
  is_pressed env msg s = true ↔
  accel_matches_message s msg ∧ context_allows env s.
Proof.
  unfold is_pressed, accel_matches_message.
  destruct (accel s) as [a|]; [|naive_solver].
  cbv zeta. rewrite context_filter_spec. naive_solver.
Qed.

Lemma is_pressed_from_key_array_iff env s :
  is_pressed_from_key_array env s = true ↔
  accel_matches_key_array s (keyArray env) ∧ context_allows env s.
Proof.
  unfold is_pressed_from_key_array, accel_matches_key_array.
  destruct (accel s) as [a|]; [|naive_solver].
  cbv zeta. rewrite context_filter_spec. naive_solver.
Qed.

(** C3: for the match against a key message and for the match against the
    key array alike, a shortcut is pressed exactly when its accelerator
    matches and its key context is [Any] or is the current key context; a
    match of the accelerator under another key context is not pressed. *)
Theorem is_pressed_spec env msg s :
  (is_pressed env msg s = true ↔
     accel_matches_message s msg ∧ context_allows env s) ∧
  (is_pressed_from_key_array env s = true ↔
     accel_matches_key_array s (keyArray env) ∧ context_allows env s) ∧
  (accel_matches_message s msg → ¬ context_allows env s →
     is_pressed env msg s = false) ∧
  (accel_matches_key_array s (keyArray env) → ¬ context_allows env s →
     is_pressed_from_key_array env s = false).
Proof.
  split_and!.
  - apply is_pressed_iff.
  - apply is_pressed_from_key_array_iff.
  - intros Ha Hc. apply not_true_is_false. rewrite is_pressed_iff. naive_solver.
  - intros Ha Hc. apply not_true_is_false.
    rewrite is_pressed_from_key_array_iff. naive_solver.
Qed.

(** ** The handler of key-down messages *)

Lemma first_hit_list_find env msg shortcuts pre s post :
  first_hit env msg shortcuts pre s post →
  list_find (λ x, is_pressed env msg x) shortcuts = Some (length pre, s).
Proof.
  intros (-> & Hpre & Hs).
  apply list_find_Some. split_and!.
  - by rewrite list_lookup_middle.
  - by rewrite Hs.
  - intros j y Hj Hlt. rewrite lookup_app_l in Hj by lia.
    rewrite Forall_lookup in Hpre. rewrite (Hpre _ _ Hj). by intros [].
Qed.

Lemma main_window_reached_iff env (children : list Window) :
  main_window_reached env children = true ↔
  ∃ i w, children !! i = Some w ∧
         isDesktop w = true ∧ win_id w = getMainWindow env ∧
         ∀ j w', j ≤ i → children !! j = Some w' → isForeground w' = false.
Proof.
  induction children as [|child rest IH]; simpl.
  - split; [done|]. intros (i & w & Hi & _). by rewrite lookup_nil in Hi.
  - destruct (isForeground child) eqn:Hfg.
    { split; [done|]. intros (i & w & _ & _ & _ & Hall).
      specialize (Hall 0 child ltac:(lia) eq_refl). congruence. }
    destruct (isDesktop child) eqn:Hd; simpl.
    + case_bool_decide as Hm.
      * split; [|done]. intros _. exists 0, child. split_and!; try done.
        intros j w' Hj Hw'. assert (j = 0) as -> by lia. by simplify_eq/=.
      * rewrite IH. split.
        -- intros (i & w & Hi & Hdw & Hmw & Hall). exists (S i), w.
           split_and!; try done. intros [|j] w' Hj Hw'; simplify_eq/=; try done.
           eapply Hall; [|done]. lia.
        -- intros ([|i] & w & Hi & Hdw & Hmw & Hall); simplify_eq/=;
             try congruence.
           exists i, w. split_and!; try done. intros j w' Hj Hw'.
           apply (Hall (S j)); [lia|done].
    + rewrite IH. split.
      * intros (i & w & Hi & Hdw & Hmw & Hall). exists (S i), w.
        split_and!; try done. intros [|j] w' Hj Hw'; simplify_eq/=; try done.
        eapply Hall; [|done]. lia.
      * intros ([|i] & w & Hi & Hdw & Hmw & Hall); simplify_eq/=;
             try congruence.
        exists i, w. split_and!; try done. intros j w' Hj Hw'.
        apply (Hall (S j)); [lia|done].
Qed.

Lemma main_window_reached_spec env :
  main_window_reached env (getChildren env) = true ↔ reaches_main_window env.
Proof. apply main_window_reached_iff. Qed.

Lemma foreground_window_first_not_reached env :
  foreground_window_first env → ¬ reaches_main_window env.
Proof.
  intros (j & w & Hj & Hfg & Habove) (i & w' & Hi & Hd & Hm & Hall).
  destruct (decide (j ≤ i)) as [Hle|Hgt].
  - specialize (Hall j w Hle Hj). congruence.
  - apply (Habove i w'); [lia|done..].
Qed.

Lemma foreground_window_on_top_first env :
  foreground_window_on_top env = true → foreground_window_first env.
Proof.
  unfold foreground_window_on_top, getTopWindow.
  destruct (getChildren env) as [|w rest] eqn:Hch; simpl; [done|].
  intros [_ Hfg]%andb_true_iff. exists 0, w. rewrite Hch.
  split_and!; [done..|]. intros i w' Hi. lia.
Qed.

(** C2: when the first shortcut that a key-down message presses is an
    [ExecuteCommand] shortcut, its command is executed, once and with the
    parameters stored in the shortcut, exactly when the walk down the window
    stack comes to the main desktop window before any foreground window;
    when a foreground window comes first, or is the top window, nothing is
    executed and the message goes on to the default processing. *)
Theorem execute_command_dispatch env msg shortcuts pre s post :
  first_hit env msg shortcuts pre s post →
  type s = ExecuteCommand →
  let result := onProcessMessage_KeyDown env msg shortcuts in
  (executions result.1 = [(command s, params s)] ↔ reaches_main_window env) ∧
  (reaches_main_window env → result.2 = ReturnTrue) ∧
  (¬ reaches_main_window env →
     executions result.1 = [] ∧ result.2 = DefaultProcessing) ∧
  (foreground_window_first env →
     executions result.1 = [] ∧ result.2 = DefaultProcessing) ∧
  (∀ w, getTopWindow env = Some w → isForeground w = true →
     executions result.1 = [] ∧ result.2 = DefaultProcessing).
Proof.
  intros Hhit Hty result.
  assert (Hyes : reaches_main_window env →
    result = ([CancelMenuLoop; ExecCommand (command s) (params s)], ReturnTrue)).
  { intros Hr. subst result. unfold onProcessMessage_KeyDown.
    destruct (foreground_window_on_top env) eqn:Htop.
    { by apply foreground_window_on_top_first,
        foreground_window_first_not_reached in Htop. }
    rewrite (first_hit_list_find _ _ _ _ _ _ Hhit), Hty.
    apply main_window_reached_spec in Hr. by rewrite Hr. }
  assert (Hno : ¬ reaches_main_window env →
    executions result.1 = [] ∧ result.2 = DefaultProcessing).
  { intros Hr. subst result. unfold onProcessMessage_KeyDown.
    destruct (foreground_window_on_top env); [done|].
    rewrite (first_hit_list_find _ _ _ _ _ _ Hhit), Hty.
    destruct (main_window_reached env (getChildren env)) eqn:Hw; [|done].
    by apply main_window_reached_spec in Hw. }
  split_and!.
  - split.
    + intros Hex. destruct (main_window_reached env (getChildren env)) eqn:Hw.
      * by apply main_window_reached_spec.
      * assert (¬ reaches_main_window env) as Hn.
        { rewrite <- main_window_reached_spec. congruence. }
        destruct (Hno Hn) as [He _]. congruence.
    + intros Hr. by rewrite (Hyes Hr).
  - intros Hr. by rewrite (Hyes Hr).
  - done.
  - intros Hf. by apply Hno, foreground_window_first_not_reached.
  - intros w Hw Hfg. apply Hno, foreground_window_first_not_reached.
    unfold getTopWindow in Hw. exists 0, w.
    destruct (getChildren env); simplify_eq/=.
    split_and!; [done..|]. intros i w' Hi. lia.
Qed.

(** C10: when the first shortcut that a key-down message presses is a quick
    tool shortcut or a sprite editor shortcut, the loop ends there: no tool is
    selected and no command is executed, the shortcuts registered later are
    not looked at, whatever they are, and the message goes on to the default
    processing. *)
Theorem quicktool_hit_stops_scan env msg shortcuts pre s post :
  first_hit env msg shortcuts pre s post →
  type s = EditorQuicktool ∨ type s = SpriteEditor →
  let result := onProcessMessage_KeyDown env msg shortcuts in
  result.2 = DefaultProcessing ∧
  executions result.1 = [] ∧ selections result.1 = [] ∧
  ∀ post', onProcessMessage_KeyDown env msg (pre ++ s :: post') = result.
Proof.
  intros Hhit Hty result.
  assert (Hres : ∀ post', onProcessMessage_KeyDown env msg (pre ++ s :: post') =
    (if foreground_window_on_top env then [] else [CancelMenuLoop],
     DefaultProcessing)).
  { intros post'. unfold onProcessMessage_KeyDown.
    destruct (foreground_window_on_top env); [done|].
    destruct Hhit as (_ & Hpre & Hs).
    rewrite (first_hit_list_find env msg _ pre s post') by done.
    by destruct Hty as [-> | ->]. }
  assert (result = (if foreground_window_on_top env then [] else [CancelMenuLoop],
                    DefaultProcessing)) as Hr.
  { subst result. destruct Hhit as (-> & _). apply Hres. }
  rewrite Hr. split_and!; [done | by destruct (foreground_window_on_top env)..|].
  intros post'. by rewrite Hres.
Qed.

(** ** The loop of the quick tool over the tool box *)

Lemma quicktool_scan_Some env shortcuts (tools : list Tool) t :
  quicktool_scan env shortcuts tools = Some t ↔
  ∃ before after,
    tools = before ++ t :: after ∧ quicktool_pressed env shortcuts t ∧
    Forall (λ u, ¬ quicktool_pressed env shortcuts u) before.
Proof.
  unfold quicktool_pressed.
  induction tools as [|u rest IH]; simpl.
  - split; [done|]. intros ([|??] & ? & ? & _); done.
  - assert (Hskip :
      ¬ (∃ i s, get_keyboard_shortcut_for_quicktool (Some u) shortcuts = Some (i, s) ∧
                is_pressed_from_key_array env s = true) →
      quicktool_scan env shortcuts rest = Some t ↔
      ∃ before after, u :: rest = before ++ t :: after ∧
        (∃ i s, get_keyboard_shortcut_for_quicktool (Some t) shortcuts = Some (i, s) ∧
                is_pressed_from_key_array env s = true) ∧
        Forall (λ u, ¬ ∃ i s,
          get_keyboard_shortcut_for_quicktool (Some u) shortcuts = Some (i, s) ∧
          is_pressed_from_key_array env s = true) before).
    { intros Hu. rewrite IH. split.
      - intros (before & after & -> & Ht & Hb).
        exists (u :: before), after. split_and!; [done..|]. by constructor.
      - intros ([|u' before] & after & Heq & Ht & Hb); simplify_eq/=; [done|].
        exists before, after. split_and!; [done..|]. by inversion Hb. }
    destruct (get_keyboard_shortcut_for_quicktool (Some u) shortcuts)
      as [[i s]|] eqn:Hfind.
    + destruct (is_pressed_from_key_array env s) eqn:Hp.
      * split.
        -- intros [= ->]. exists [], rest. split_and!; [done| |done].
           by exists i, s.
        -- intros ([|u' before] & after & Heq & Ht & Hb); simplify_eq/=; [done|].
           inversion Hb as [|?? Hu' _]; subst. exfalso. apply Hu'. by exists i, s.
      * apply Hskip. intros (i' & s' & ? & ?). congruence.
    + apply Hskip. intros (i' & s' & ? & ?). congruence.
Qed.

Lemma quicktool_scan_None env shortcuts (tools : list Tool) :
  quicktool_scan env shortcuts tools = None ↔
  Forall (λ u, ¬ quicktool_pressed env shortcuts u) tools.
Proof.
  unfold quicktool_pressed.
  induction tools as [|u rest IH]; simpl; [done|].
  rewrite Forall_cons.
  destruct (get_keyboard_shortcut_for_quicktool (Some u) shortcuts)
    as [[i s]|] eqn:Hfind.
  - destruct (is_pressed_from_key_array env s) eqn:Hp.
    + split; [done|]. intros [Hu _]. exfalso. apply Hu. by exists i, s.
    + rewrite IH. split; [|tauto]. intros Hr. split; [|done].
      intros (i' & s' & ? & ?). congruence.
  - rewrite IH. split; [|tauto]. intros Hr. split; [|done].
    intros (i' & s' & ? & ?). congruence.
Qed.

(** ** The registry *)

Lemma identity_of_add_shortcut str s :
  identity_of (add_shortcut str s) = identity_of s.
Proof. done. Qed.

Lemma identity_of_new_shortcut r :
  identity_of (new_shortcut getCommandByName r) =
  registered_identity getCommandByName r.
Proof.
  destruct r as [str name p kc| | |]; [|done..].
  unfold identity_of; simpl. by destruct (getCommandByName name).
Qed.

Lemma is_shortcut_for_command_identity c p s :
  is_shortcut_for_command c p s ↔ identity_of s = Some (IdCommand c (default ∅ p)).
Proof.
  unfold is_shortcut_for_command, identity_of, Params_empty.
  destruct (type s); simpl; [|naive_solver..].
  destruct (command s) as [c'|]; simpl; [|naive_solver].
  rewrite andb_True, bool_decide_spec.
  destruct (params s) as [sp|]; [|naive_solver].
  destruct p as [p'|]; simpl; rewrite bool_decide_spec; naive_solver.
Qed.

Lemma get_keyboard_shortcut_for_command_identity name c p shortcuts :
  getCommandByName name = Some c →
  get_keyboard_shortcut_for_command getCommandByName name p shortcuts =
  lookup_identity (IdCommand c (default ∅ p)) shortcuts.
Proof.
  intros Hc. unfold get_keyboard_shortcut_for_command, lookup_identity.
  rewrite Hc. apply list_find_ext. intros s. apply is_shortcut_for_command_identity.
Qed.

(** The tests of the other three lookups are tests of the identity too. *)
Ltac identity_test s :=
  unfold identity_of; rewrite andb_True, !bool_decide_spec;
  destruct (type s); [destruct (command s), (params s)| | |];
  (split; [intros [? ?]|intros ?]); simplify_eq; done.

Lemma get_keyboard_shortcut_for_tool_identity t shortcuts :
  get_keyboard_shortcut_for_tool t shortcuts = lookup_identity (IdTool t) shortcuts.
Proof.
  apply list_find_ext. intros s. identity_test s.
Qed.

Lemma get_keyboard_shortcut_for_quicktool_identity t shortcuts :
  get_keyboard_shortcut_for_quicktool t shortcuts =
  lookup_identity (IdQuicktool t) shortcuts.
Proof.
  apply list_find_ext. intros s. identity_test s.
Qed.

Lemma get_keyboard_shortcut_for_spriteeditor_identity a shortcuts :
  get_keyboard_shortcut_for_spriteeditor a shortcuts =
  lookup_identity (IdSpriteEditor a) shortcuts.
Proof.
  apply list_find_ext. intros s. identity_test s.
Qed.

Lemma insert_length_snoc shortcuts s s' :
  <[length shortcuts := s']> (shortcuts ++ [s]) = shortcuts ++ [s'].
Proof.
  rewrite insert_app_r_alt by lia. by rewrite Nat.sub_diag.
Qed.

(** A registration changes the first shortcut with its identity, or adds a
    shortcut at the end when there is none. *)
Lemma register_unfold shortcuts r :
  register getCommandByName shortcuts r =
  match registered_identity getCommandByName r ≫=
          (λ k, lookup_identity k shortcuts) with
  | Some (i, s) => <[i := add_shortcut (chord_string r) s]> shortcuts
  | None => shortcuts ++ [add_shortcut (chord_string r)
                            (new_shortcut getCommandByName r)]
  end.
Proof.
  destruct r as [str name p kc|str t|str t|str a]; simpl.
  - unfold add_keyboard_shortcut_to_execute_command.
    destruct (getCommandByName name) as [c|] eqn:Hc; simpl.
    + rewrite (get_keyboard_shortcut_for_command_identity _ c) by done.
      destruct (lookup_identity _ shortcuts) as [[i s]|]; simpl; [done|].
      apply insert_length_snoc.
    + unfold get_keyboard_shortcut_for_command. rewrite Hc. simpl.
      apply insert_length_snoc.
  - unfold add_keyboard_shortcut_to_change_tool.
    rewrite get_keyboard_shortcut_for_tool_identity.
    destruct (lookup_identity _ shortcuts) as [[i s]|]; simpl; [done|].
    apply insert_length_snoc.
  - unfold add_keyboard_shortcut_to_quicktool.
    rewrite get_keyboard_shortcut_for_quicktool_identity.
    destruct (lookup_identity _ shortcuts) as [[i s]|]; simpl; [done|].
    apply insert_length_snoc.
  - unfold add_keyboard_shortcut_to_spriteeditor.
    rewrite get_keyboard_shortcut_for_spriteeditor_identity.
    destruct (lookup_identity _ shortcuts) as [[i s]|]; simpl; [done|].
    apply insert_length_snoc.
Qed.

Lemma register_cases shortcuts r :
  (∃ i s k,
     registered_identity getCommandByName r = Some k ∧
     shortcuts !! i = Some s ∧ identity_of s = Some k ∧
     register getCommandByName shortcuts r =
       <[i := add_shortcut (chord_string r) s]> shortcuts) ∨
  ((∀ k, registered_identity getCommandByName r = Some k →
         Forall (λ s, identity_of s ≠ Some k) shortcuts) ∧
   register getCommandByName shortcuts r =
     shortcuts ++ [add_shortcut (chord_string r) (new_shortcut getCommandByName r)]).
Proof.
  rewrite register_unfold.
  destruct (registered_identity getCommandByName r) as [k|] eqn:Hk; simpl.
  - destruct (lookup_identity k shortcuts) as [[i s]|] eqn:Hfind.
    + left. apply list_find_Some in Hfind as (Hi & Hs & _). by exists i, s, k.
    + right. split; [|done]. intros k' [= <-].
      by apply list_find_None in Hfind.
  - right. by split.
Qed.

Lemma registry_of_snoc history r :
  registry_of getCommandByName (history ++ [r]) =
  register getCommandByName (registry_of getCommandByName history) r.
Proof. unfold registry_of. by rewrite foldl_app. Qed.

(** Induction over the history of the registry. *)
Lemma registry_ind (P : list Shortcut → Prop) :
  P [] →
  (∀ shortcuts r, P shortcuts → P (register getCommandByName shortcuts r)) →
  ∀ history, P (registry_of getCommandByName history).
Proof.
  intros Hnil Hreg history.
  induction history as [|r history IH] using rev_ind; [done|].
  rewrite registry_of_snoc. by apply Hreg.
Qed.

Lemma register_accel shortcuts r :
  Forall (λ s, is_Some (accel s)) shortcuts →
  Forall (λ s, is_Some (accel s)) (register getCommandByName shortcuts r).
Proof.
  intros Hall.
  destruct (register_cases shortcuts r) as
    [(i & s & k & _ & Hi & _ & ->)|[_ ->]].
  - apply Forall_insert; [done|].
    rewrite Forall_lookup in Hall. destruct (Hall _ _ Hi) as [a Ha].
    simpl. rewrite Ha. by eexists.
  - apply Forall_app. split; [done|]. constructor; [|done].
    destruct r; simpl; by eexists.
Qed.

Lemma registry_accel history :
  Forall (λ s, is_Some (accel s)) (registry_of getCommandByName history).
Proof. apply registry_ind; [done|]. intros ???. by apply register_accel. Qed.

Lemma register_unique shortcuts r :
  unique_identities shortcuts →
  unique_identities (register getCommandByName shortcuts r).
Proof.
  intros Huniq.
  destruct (register_cases shortcuts r) as
    [(i0 & s0 & k0 & _ & Hi0 & Hk0 & ->)|[Hnone ->]].
  - assert (Hback : ∀ j y k,
      <[i0 := add_shortcut (chord_string r) s0]> shortcuts !! j = Some y →
      identity_of y = Some k →
      ∃ y0, shortcuts !! j = Some y0 ∧ identity_of y0 = Some k).
    { intros j y k [(-> & <- & _)|[_ Hj]]%list_lookup_insert_Some Hy.
      - exists s0. by rewrite identity_of_add_shortcut in Hy.
      - by exists y. }
    intros i j s1 s2 k Hi Hj H1 H2.
    destruct (Hback _ _ _ Hi H1) as (y1 & Hy1 & Hk1).
    destruct (Hback _ _ _ Hj H2) as (y2 & Hy2 & Hk2).
    by eapply Huniq.
  - intros i j s1 s2 k Hi Hj H1 H2.
    apply lookup_app_Some in Hi as [Hi|[Hi Hi']];
      apply lookup_app_Some in Hj as [Hj|[Hj Hj']].
    + by eapply Huniq.
    + exfalso. apply list_lookup_singleton_Some in Hj' as [_ <-].
      rewrite identity_of_add_shortcut, identity_of_new_shortcut in H2.
      specialize (Hnone _ H2). rewrite Forall_lookup in Hnone.
      by apply (Hnone _ _ Hi).
    + exfalso. apply list_lookup_singleton_Some in Hi' as [_ <-].
      rewrite identity_of_add_shortcut, identity_of_new_shortcut in H1.
      specialize (Hnone _ H1). rewrite Forall_lookup in Hnone.
      by apply (Hnone _ _ Hj).
    + apply list_lookup_singleton_Some in Hi' as [Hi' _].
      apply list_lookup_singleton_Some in Hj' as [Hj' _]. lia.
Qed.

(** Each identity has one shortcut at most in the registry. *)
Lemma registry_unique history :
  unique_identities (registry_of getCommandByName history).
Proof.
  apply registry_ind; [|intros ???; by apply register_unique].
  intros i j s1 s2 k Hi. by rewrite lookup_nil in Hi.
Qed.

(** The registry has no shortcut of an identity that was never registered. *)
Lemma registry_never_registered history k :
  never_registered getCommandByName history k →
  Forall (λ s, identity_of s ≠ Some k) (registry_of getCommandByName history).
Proof.
  unfold never_registered.
  induction history as [|r history IH] using rev_ind; [done|].
  rewrite Forall_app, Forall_singleton. intros [Hh Hr].
  rewrite registry_of_snoc.
  destruct (register_cases (registry_of getCommandByName history) r) as
    [(i & s & k' & Hk' & Hi & Hs & ->)|[_ ->]].
  - apply Forall_insert; [by apply IH|].
    rewrite identity_of_add_shortcut, Hs. congruence.
  - apply Forall_app. split; [by apply IH|]. constructor; [|done].
    by rewrite identity_of_add_shortcut, identity_of_new_shortcut.
Qed.

Lemma register_params shortcuts r :
  Forall (λ s, type s = ExecuteCommand → is_Some (params s)) shortcuts →
  Forall (λ s, type s = ExecuteCommand → is_Some (params s))
    (register getCommandByName shortcuts r).
Proof.
  intros Hall.
  destruct (register_cases shortcuts r) as
    [(i & s & k & _ & Hi & _ & ->)|[_ ->]].
  - apply Forall_insert; [done|].
    rewrite Forall_lookup in Hall. apply (Hall _ _ Hi).
  - apply Forall_app. split; [done|]. constructor; [|done].
    destruct r; simpl; [by eexists|done..].
Qed.

Lemma registry_params history :
  Forall (λ s, type s = ExecuteCommand → is_Some (params s))
    (registry_of getCommandByName history).
Proof. apply registry_ind; [done|]. intros ???. by apply register_params. Qed.

Lemma recognizes_kept str a chord :
  AcceleratorLaws → recognizes a chord →
  recognizes (addKeysFromString str a) chord.
Proof.
  intros [Hc Hk _] [H1 H2]. split.
  - intros m c u Hm. by apply Hc, H1.
  - intros key Hm. by apply Hk, H2.
Qed.

(** Under the laws of the accelerator, the shortcut of an identity recognizes
    the chords of all the registrations made for the identity. *)
Lemma registry_recognizes history r k :
  AcceleratorLaws →
  r ∈ history →
  registered_identity getCommandByName r = Some k →
  ∃ i b a,
    registry_of getCommandByName history !! i = Some b ∧
    identity_of b = Some k ∧ accel b = Some a ∧
    recognizes a (chord_string r).
Proof.
  intros Hlaws Hin Hk.
  induction history as [|r' history IH] using rev_ind.
  { by apply elem_of_nil in Hin. }
  rewrite registry_of_snoc.
  pose proof (registry_accel history) as Haccel.
  apply elem_of_app in Hin as [Hin|Hin%list_elem_of_singleton].
  - destruct (IH Hin) as (i & b & a & Hi & Hb & Ha & Hrec).
    destruct (register_cases (registry_of getCommandByName history) r') as
      [(i0 & s0 & k0 & Hk0 & Hi0 & Hs0 & ->)|[_ ->]].
    + destruct (decide (i0 = i)) as [->|Hne].
      * simplify_eq. eexists i, _, _. split_and!.
        -- apply list_lookup_insert_eq. by eapply lookup_lt_Some.
        -- done.
        -- simpl. by rewrite Ha.
        -- by apply recognizes_kept.
      * exists i, b, a. by rewrite list_lookup_insert_ne.
    + exists i, b, a. split_and!; [|done..].
      rewrite lookup_app_l; [done|]. by eapply lookup_lt_Some.
  - subst r'.
    destruct (register_cases (registry_of getCommandByName history) r) as
      [(i0 & s0 & k0 & Hk0 & Hi0 & Hs0 & ->)|[_ ->]].
    + simplify_eq. rewrite Forall_lookup in Haccel.
      destruct (Haccel _ _ Hi0) as [a0 Ha0].
      eexists i0, _, _. split_and!.
      * apply list_lookup_insert_eq. by eapply lookup_lt_Some.
      * done.
      * simpl. by rewrite Ha0.
      * by apply keys_added.
    + eexists (length (registry_of getCommandByName history)), _, _.
      split_and!.
      * by rewrite list_lookup_middle.
      * by rewrite identity_of_add_shortcut, identity_of_new_shortcut.
      * by destruct r.
      * by split.
Qed.

(** C4: registration is idempotent for each identity, whatever the kind of
    the shortcut.  When an identity is registered that was registered before,
    with other keys, no shortcut is added to the registry: the registry has
    one shortcut of the identity, and its accelerator recognizes the chords
    of both registrations.  (A command is identified by what
    [getCommandByName] answers for its name.) *)
Theorem registration_idempotent history r1 r2 k :
  AcceleratorLaws →
  r1 ∈ history →
  registered_identity getCommandByName r1 = Some k →
  registered_identity getCommandByName r2 = Some k →
  let shortcuts1 := registry_of getCommandByName history in
  let shortcuts2 := register getCommandByName shortcuts1 r2 in
  length shortcuts2 = length shortcuts1 ∧
  ∃ i b a,
    shortcuts2 !! i = Some b ∧ identity_of b = Some k ∧
    (∀ j b', shortcuts2 !! j = Some b' → identity_of b' = Some k → j = i) ∧
    accel b = Some a ∧
    recognizes a (chord_string r1) ∧ recognizes a (chord_string r2).
Proof.
  intros Hlaws Hin Hk1 Hk2 shortcuts1 shortcuts2.
  assert (shortcuts2 = registry_of getCommandByName (history ++ [r2])) as Heq.
  { by rewrite registry_of_snoc. }
  split.
  - subst shortcuts2.
    destruct (register_cases shortcuts1 r2) as
      [(i0 & s0 & k0 & _ & _ & _ & ->)|[Hnone _]].
    + apply length_insert.
    + exfalso. specialize (Hnone _ Hk2).
      destruct (registry_recognizes history r1 k Hlaws Hin Hk1)
        as (i & b & _ & Hi & Hb & _).
      rewrite Forall_lookup in Hnone. by apply (Hnone _ _ Hi).
  - destruct (registry_recognizes (history ++ [r2]) r1 k Hlaws)
      as (i & b & a & Hi & Hb & Ha & Hrec1); [set_solver|done|].
    destruct (registry_recognizes (history ++ [r2]) r2 k Hlaws)
      as (i' & b' & a' & Hi' & Hb' & Ha' & Hrec2); [set_solver|done|].
    pose proof (registry_unique (history ++ [r2])) as Huniq.
    rewrite <- Heq in Hi, Hi', Huniq.
    assert (i' = i) as -> by by eapply Huniq.
    simplify_eq. exists i, b, a. split_and!; try done.
    intros j b' Hj Hb'. by eapply Huniq.
Qed.

(** C7: after [add_keyboard_shortcut_to_execute_command] for the keys
    [Ctrl+N], the command name [NewFile], no parameters (no [Params] or the
    empty [Params]) and the key context [Any], in the empty registry,
    [get_command_from_key_message] answers, for a key message that is the
    chord [Ctrl+N], the command of the name [NewFile] and the empty
    parameters. *)
Theorem register_then_resolve env msg (p : option Params) :
  p = None ∨ p = Some ∅ →
  encodes msg "Ctrl+N" →
  let shortcuts :=
    (add_keyboard_shortcut_to_execute_command getCommandByName
       "Ctrl+N" "NewFile" p Any []).1 in
  get_command_from_key_message env msg shortcuts =
    Some (getCommandByName "NewFile", Some ∅).
Proof.
  intros Hp Henc. unfold encodes in Henc.
  unfold add_keyboard_shortcut_to_execute_command,
    get_keyboard_shortcut_for_command.
  assert (default ∅ p = ∅) as Hd by (by destruct Hp as [-> | ->]).
  destruct (getCommandByName "NewFile") as [c|] eqn:Hc; simpl;
    unfold is_pressed; simpl; rewrite Henc, Hd; done.
Qed.

(** ** The [ChangeTool] case *)

Lemma identity_of_IdTool s t :
  identity_of s = Some (IdTool t) ↔ type s = ChangeTool ∧ tool s = t.
Proof.
  unfold identity_of.
  destruct (type s); [destruct (command s), (params s)| | |]; naive_solver.
Qed.

(** In a registry without two shortcuts of one identity, the shortcut that
    the lookup finds for a tool is pressed exactly when some [ChangeTool]
    shortcut of the tool is. *)
Lemma tool_shortcut_pressed_lookup env msg shortcuts t :
  unique_identities shortcuts →
  tool_shortcut_pressed env msg shortcuts t ↔
  ∃ i s, get_keyboard_shortcut_for_tool (Some t) shortcuts = Some (i, s) ∧
         is_pressed env msg s = true.
Proof.
  intros Huniq. unfold tool_shortcut_pressed.
  rewrite Exists_exists, get_keyboard_shortcut_for_tool_identity.
  unfold lookup_identity. split.
  - intros (s' & Hin & Hty & Htool & Hp).
    assert (identity_of s' = Some (IdTool (Some t))) as Hid
      by by apply identity_of_IdTool.
    destruct (list_find_elem_of (λ s, identity_of s = Some (IdTool (Some t)))
                shortcuts s' Hin Hid) as [[i s] Hfind].
    exists i, s. split; [done|].
    apply list_find_Some in Hfind as (Hi & Hs & _).
    apply list_elem_of_lookup_1 in Hin as [j Hj].
    assert (i = j) as -> by by eapply Huniq. by simplify_eq.
  - intros (i & s & (Hi & Hs & _)%list_find_Some & Hp).
    exists s. apply identity_of_IdTool in Hs as [??].
    split_and!; try done. by eapply list_elem_of_lookup_2.
Qed.

Lemma collect_possibles_candidates env msg shortcuts (tools : list Tool) :
  unique_identities shortcuts →
  collect_possibles env msg shortcuts tools =
  filter (tool_shortcut_pressed env msg shortcuts) tools.
Proof.
  intros Huniq. induction tools as [|t rest IH]; simpl; [done|].
  rewrite filter_cons. rewrite <- IH.
  destruct (decide (tool_shortcut_pressed env msg shortcuts t)) as [Ht|Ht].
  - apply tool_shortcut_pressed_lookup in Ht as (i & s & -> & ->); done.
  - destruct (get_keyboard_shortcut_for_tool (Some t) shortcuts)
      as [[i s]|] eqn:Hfind; [|done].
    destruct (is_pressed env msg s) eqn:Hp; [|done].
    exfalso. apply Ht. apply tool_shortcut_pressed_lookup; [done|].
    by exists i, s.
Qed.

Lemma list_find_other_visible env (possibles : list Tool) :
  list_find (λ t, t ≠ getCurrentTool env ∧ isToolVisible env t) possibles =
  list_find (other_visible_tool env) possibles.
Proof.
  apply list_find_ext. intros t. unfold other_visible_tool.
  by rewrite Is_true_true.
Qed.

Lemma list_find_other_visible_None env (possibles : list Tool) :
  Forall (λ u, ¬ other_visible_tool env u) possibles →
  list_find (other_visible_tool env) possibles = None.
Proof. intros Hnone. by apply list_find_None. Qed.

Lemma select_this_tool_other env s (possibles before after : list Tool) c :
  2 ≤ length possibles →
  possibles = before ++ c :: after →
  other_visible_tool env c →
  Forall (λ u, ¬ other_visible_tool env u) before →
  select_this_tool env s possibles = Some c.
Proof.
  intros Hlen Heq Hc Hbefore. unfold select_this_tool.
  rewrite bool_decide_eq_true_2 by done.
  rewrite list_find_other_visible.
  assert (list_find (other_visible_tool env) possibles = Some (length before, c))
    as ->; [|done].
  apply list_find_Some. subst possibles. split_and!.
  - by rewrite list_lookup_middle.
  - done.
  - intros j y Hj Hlt. rewrite lookup_app_l in Hj by lia.
    rewrite Forall_lookup in Hbefore. by eapply Hbefore.
Qed.

Lemma select_this_tool_next env s (possibles : list Tool) i :
  2 ≤ length possibles →
  Forall (λ u, ¬ other_visible_tool env u) possibles →
  possibles !! i = Some (getCurrentTool env) →
  (∀ j, j < i → possibles !! j ≠ Some (getCurrentTool env)) →
  select_this_tool env s possibles =
    possibles !! ((i + 1) `mod` length possibles).
Proof.
  intros Hlen Hnone Hi Hfirst. unfold select_this_tool.
  rewrite bool_decide_eq_true_2 by done.
  rewrite list_find_other_visible.
  rewrite list_find_other_visible_None by done.
  assert (list_find (λ t, t = getCurrentTool env) possibles =
          Some (i, getCurrentTool env)) as ->; [|done].
  apply list_find_Some. split_and!; [done..|].
  intros j y Hj Hlt ->. by apply (Hfirst j).
Qed.

Lemma select_this_tool_fallback env s (possibles : list Tool) :
  2 ≤ length possibles →
  Forall (λ u, ¬ other_visible_tool env u) possibles →
  getCurrentTool env ∉ possibles →
  select_this_tool env s possibles = tool s.
Proof.
  intros Hlen Hnone Hcur. unfold select_this_tool.
  rewrite bool_decide_eq_true_2 by done.
  rewrite list_find_other_visible.
  rewrite list_find_other_visible_None by done.
  assert (list_find (λ t, t = getCurrentTool env) possibles = None) as ->; [|done].
  apply list_find_None, Forall_forall. intros t Ht ->. done.
Qed.

(** The tool that is selected is the tool of the pressed shortcut or one of
    [possibles]. *)
Lemma select_this_tool_cases env s (possibles : list Tool) t :
  select_this_tool env s possibles = Some t →
  tool s = Some t ∨ t ∈ possibles.
Proof.
  unfold select_this_tool. case_bool_decide; [|by left].
  destruct (list_find _ possibles) as [[i u]|] eqn:Hfind.
  - intros [= <-]. right.
    apply list_find_Some in Hfind as (Hi & _). by eapply list_elem_of_lookup_2.
  - destruct (list_find (λ t, t = getCurrentTool env) possibles) as [[i u]|];
      [|by left].
    intros Hi. right. by eapply list_elem_of_lookup_2.
Qed.

Lemma onProcessMessage_KeyDown_ChangeTool env msg history pre s post :
  let shortcuts := registry_of getCommandByName history in
  foreground_window_on_top env = false →
  first_hit env msg shortcuts pre s post →
  type s = ChangeTool →
  onProcessMessage_KeyDown env msg shortcuts =
    ([CancelMenuLoop;
      SelectTool (select_this_tool env s (candidates env msg shortcuts))],
     ReturnTrue).
Proof.
  intros shortcuts Htop Hhit Hty. unfold onProcessMessage_KeyDown.
  rewrite Htop, (first_hit_list_find _ _ _ _ _ _ Hhit), Hty.
  rewrite collect_possibles_candidates by apply registry_unique. done.
Qed.

(** C1: when the first shortcut that a key-down message presses is a
    [ChangeTool] shortcut, the handler collects the tools of the tool box
    that have a pressed [ChangeTool] shortcut.  With two candidates or more
    it selects the first of them that the tool bar shows and that is not the
    current tool; when there is none and the current tool is a candidate, it
    selects the candidate after the current tool, the first candidate after
    the last one.  With one candidate it selects that one (the tool of the
    pressed shortcut being a tool of the tool box). *)
Theorem change_tool_dispatch env msg history pre s post :
  let shortcuts := registry_of getCommandByName history in
  let possibles := candidates env msg shortcuts in
  let result := onProcessMessage_KeyDown env msg shortcuts in
  foreground_window_on_top env = false →
  first_hit env msg shortcuts pre s post →
  type s = ChangeTool →
  (∀ before c after,
     2 ≤ length possibles →
     possibles = before ++ c :: after →
     other_visible_tool env c →
     Forall (λ u, ¬ other_visible_tool env u) before →
     result = ([CancelMenuLoop; SelectTool (Some c)], ReturnTrue)) ∧
  (∀ i c,
     2 ≤ length possibles →
     Forall (λ u, ¬ other_visible_tool env u) possibles →
     possibles !! i = Some (getCurrentTool env) →
     (∀ j, j < i → possibles !! j ≠ Some (getCurrentTool env)) →
     possibles !! ((i + 1) `mod` length possibles) = Some c →
     result = ([CancelMenuLoop; SelectTool (Some c)], ReturnTrue)) ∧
  (∀ c,
     possibles = [c] →
     (∃ t, tool s = Some t ∧ t ∈ toolbox env) →
     result = ([CancelMenuLoop; SelectTool (Some c)], ReturnTrue)).
Proof.
  intros shortcuts possibles result Htop Hhit Hty.
  assert (result = ([CancelMenuLoop; SelectTool (select_this_tool env s possibles)],
                    ReturnTrue)) as ->.
  { by eapply onProcessMessage_KeyDown_ChangeTool. }
  split_and!.
  - intros before c after Hlen Heq Hc Hbefore.
    by rewrite (select_this_tool_other env s possibles before after c).
  - intros i c Hlen Hnone Hi Hfirst Hnext.
    by rewrite (select_this_tool_next env s possibles i), Hnext.
  - intros c Hone (t & Htool & Hbox).
    unfold select_this_tool. rewrite Hone. simpl.
    assert (t ∈ possibles) as Hin.
    { apply list_elem_of_filter. split; [|done].
      apply Exists_exists. exists s. destruct Hhit as (Heq & _ & Hp).
      split_and!; try done. fold shortcuts in Heq. rewrite Heq. set_solver. }
    rewrite Hone in Hin. apply list_elem_of_singleton in Hin as ->.
    by rewrite Htool.
Qed.

(** C8 as the code has it: with two candidates or more, none of them shown
    by the tool bar and different from the current tool, and the current tool
    not among them, the handler selects the tool of the pressed shortcut, the
    first one in the order of registration. *)
Theorem change_tool_fallback env msg history pre s post :
  let shortcuts := registry_of getCommandByName history in
  let possibles := candidates env msg shortcuts in
  foreground_window_on_top env = false →
  first_hit env msg shortcuts pre s post →
  type s = ChangeTool →
  2 ≤ length possibles →
  Forall (λ u, ¬ other_visible_tool env u) possibles →
  getCurrentTool env ∉ possibles →
  onProcessMessage_KeyDown env msg shortcuts =
    ([CancelMenuLoop; SelectTool (tool s)], ReturnTrue).
Proof.
  intros shortcuts possibles Htop Hhit Hty Hlen Hnone Hcur.
  rewrite <- (select_this_tool_fallback env s possibles) by done.
  by eapply onProcessMessage_KeyDown_ChangeTool.
Qed.

(** ** What was never registered *)

Lemma lookup_identity_never_registered history k :
  never_registered getCommandByName history k →
  lookup_identity k (registry_of getCommandByName history) = None.
Proof.
  intros Hnever. apply list_find_None.
  by apply registry_never_registered.
Qed.

Lemma get_command_from_key_message_Some env msg shortcuts c p :
  get_command_from_key_message env msg shortcuts = Some (c, p) →
  ∃ s, s ∈ shortcuts ∧ type s = ExecuteCommand ∧
       is_pressed env msg s = true ∧ command s = c ∧ params s = p.
Proof.
  induction shortcuts as [|s rest IH]; simpl; [done|].
  destruct (bool_decide (type s = ExecuteCommand) && is_pressed env msg s)
    eqn:Htest.
  - intros [= <- <-]. apply andb_true_iff in Htest as [Hty%bool_decide_eq_true Hp].
    exists s. split_and!; try done. by left.
  - intros (s' & Hin & Hs')%IH. exists s'. split; [by right|done].
Qed.

Lemma get_command_from_key_message_None env msg shortcuts :
  Forall (λ s, is_pressed env msg s = false) shortcuts →
  get_command_from_key_message env msg shortcuts = None.
Proof.
  induction 1 as [|s rest Hs _ IH]; simpl; [done|].
  by rewrite Hs, andb_false_r.
Qed.

Lemma onProcessMessage_KeyDown_selections env msg shortcuts (t : Tool) :
  Some t ∈ selections (onProcessMessage_KeyDown env msg shortcuts).1 →
  ∃ s, s ∈ shortcuts ∧ type s = ChangeTool ∧
       (tool s = Some t ∨
        t ∈ collect_possibles env msg shortcuts (toolbox env)).
Proof.
  unfold onProcessMessage_KeyDown.
  destruct (foreground_window_on_top env); simpl; [by intros ?%elem_of_nil|].
  destruct (list_find _ shortcuts) as [[i s]|] eqn:Hfind; simpl;
    [|by intros ?%elem_of_nil].
  apply list_find_Some in Hfind as (Hi & _).
  destruct (type s) eqn:Hty; simpl.
  - destruct (main_window_reached env (getChildren env)); simpl;
      by intros ?%elem_of_nil.
  - intros Hsel%list_elem_of_singleton. symmetry in Hsel.
    apply select_this_tool_cases in Hsel.
    exists s. split_and!; try done. by eapply list_elem_of_lookup_2.
  - by intros ?%elem_of_nil.
  - by intros ?%elem_of_nil.
Qed.

(** C9: what was never registered is not found, and not finding it is an
    answer, not an error.  In the registry that a history of registrations
    builds, the lookups and the accessors answer "none" for a command, a tool
    or an action of the sprite editor that no registration was for; no key
    message resolves to the command, the tool is never selected by a key-down
    message nor answered as quick tool; and a key-down message that presses no
    shortcut does nothing and goes on to the default processing. *)
Theorem never_registered_not_found env msg history :
  let shortcuts := registry_of getCommandByName history in
  let never := never_registered getCommandByName history in
  (∀ name p,
     (∀ c, getCommandByName name = Some c → never (IdCommand c (default ∅ p))) →
     get_keyboard_shortcut_for_command getCommandByName name p shortcuts = None ∧
     get_accel_to_execute_command getCommandByName name p shortcuts = None) ∧
  (∀ c, (∀ p, never (IdCommand c p)) →
     ∀ p, get_command_from_key_message env msg shortcuts ≠ Some (Some c, p)) ∧
  (∀ t, never (IdTool t) →
     get_keyboard_shortcut_for_tool t shortcuts = None ∧
     get_accel_to_change_tool t shortcuts = None) ∧
  (∀ t : Tool, never (IdTool (Some t)) →
     Some t ∉ selections (onProcessMessage_KeyDown env msg shortcuts).1) ∧
  (∀ t, never (IdQuicktool t) →
     get_keyboard_shortcut_for_quicktool t shortcuts = None) ∧
  (∀ (t : Tool) currentTool, never (IdQuicktool (Some t)) →
     get_selected_quicktool env shortcuts currentTool ≠ Some t) ∧
  (∀ a, never (IdSpriteEditor a) →
     get_keyboard_shortcut_for_spriteeditor a shortcuts = None ∧
     get_accel_to_spriteeditor a shortcuts = None) ∧
  Forall (λ '(a, get_accel), never (IdSpriteEditor a) → get_accel shortcuts = None)
    spriteeditor_accessors ∧
  (Forall (λ s, is_pressed env msg s = false) shortcuts →
     onProcessMessage_KeyDown env msg shortcuts = ([], DefaultProcessing) ∧
     get_command_from_key_message env msg shortcuts = None).
Proof.
  intros shortcuts never. subst never. unfold shortcuts. clear shortcuts.
  assert (Hsprite : ∀ a,
     never_registered getCommandByName history (IdSpriteEditor a) →
     get_keyboard_shortcut_for_spriteeditor a
       (registry_of getCommandByName history) = None ∧
     get_accel_to_spriteeditor a (registry_of getCommandByName history) = None).
  { intros a Ha. unfold get_accel_to_spriteeditor.
    rewrite get_keyboard_shortcut_for_spriteeditor_identity.
    by rewrite (lookup_identity_never_registered _ _ Ha). }
  split_and!.
  - intros name p Hname.
    unfold get_accel_to_execute_command.
    destruct (getCommandByName name) as [c|] eqn:Hc.
    + rewrite (get_keyboard_shortcut_for_command_identity _ c) by done.
      by rewrite (lookup_identity_never_registered _ _ (Hname c eq_refl)).
    + unfold get_keyboard_shortcut_for_command. by rewrite Hc.
  - intros c Hc p (s & Hin & Hty & _ & Hcmd & _)%get_command_from_key_message_Some.
    pose proof (registry_params history) as Hparams.
    rewrite Forall_forall in Hparams. destruct (Hparams s Hin Hty) as [q Hq].
    pose proof (registry_never_registered _ _ (Hc q)) as Hnone.
    rewrite Forall_forall in Hnone. apply (Hnone s Hin).
    unfold identity_of. by rewrite Hty, Hcmd, Hq.
  - intros t Ht. unfold get_accel_to_change_tool.
    rewrite get_keyboard_shortcut_for_tool_identity.
    by rewrite (lookup_identity_never_registered _ _ Ht).
  - intros t Ht (s & Hin & Hty & Hsel)%onProcessMessage_KeyDown_selections.
    pose proof (registry_never_registered _ _ Ht) as Hnone.
    rewrite Forall_forall in Hnone.
    destruct Hsel as [Htool|Hposs].
    + apply (Hnone s Hin). by apply identity_of_IdTool.
    + rewrite collect_possibles_candidates in Hposs by apply registry_unique.
      apply list_elem_of_filter in Hposs as [Hpressed _].
      apply Exists_exists in Hpressed as (s' & Hin' & Hty' & Htool' & _).
      apply (Hnone s' Hin'). by apply identity_of_IdTool.
  - intros t Ht. rewrite get_keyboard_shortcut_for_quicktool_identity.
    by rewrite (lookup_identity_never_registered _ _ Ht).
  - intros t currentTool Ht. unfold get_selected_quicktool.
    destruct (match currentTool with Some _ => _ | None => _ end); [done|].
    intros (_ & _ & _ & (i & s & Hfind & _) & _)%quicktool_scan_Some.
    rewrite get_keyboard_shortcut_for_quicktool_identity in Hfind.
    by rewrite (lookup_identity_never_registered _ _ Ht) in Hfind.
  - done.
  - unfold spriteeditor_accessors. repeat constructor; intros Ha; by apply Hsprite.
  - intros Hnone. split; [|by apply get_command_from_key_message_None].
    unfold onProcessMessage_KeyDown.
    destruct (foreground_window_on_top env); [done|].
    assert (list_find (λ s, is_pressed env msg s)
              (registry_of getCommandByName history) = None) as ->; [|done].
    apply list_find_None. eapply Forall_impl; [done|].
    intros s Hs. simpl in Hs. rewrite Hs. by intros [].
Qed.

(** ** The quick tool *)

Lemma register_keycontext shortcuts r :
  Forall (λ s, type s ≠ ExecuteCommand → keycontext s = Any) shortcuts →
  Forall (λ s, type s ≠ ExecuteCommand → keycontext s = Any)
    (register getCommandByName shortcuts r).
Proof.
  intros Hall.
  destruct (register_cases shortcuts r) as
    [(i & s & k & _ & Hi & _ & ->)|[_ ->]].
  - apply Forall_insert; [done|].
    rewrite Forall_lookup in Hall. apply (Hall _ _ Hi).
  - apply Forall_app. split; [done|]. constructor; [|done].
    by destruct r.
Qed.

(** Only the shortcuts of commands have a key context other than [Any]. *)
Lemma registry_keycontext history :
  Forall (λ s, type s ≠ ExecuteCommand → keycontext s = Any)
    (registry_of getCommandByName history).
Proof. apply registry_ind; [done|]. intros ???. by apply register_keycontext. Qed.

Lemma copy_selection_held_pressed env shortcuts (currentTool : option Tool) history :
  shortcuts = registry_of getCommandByName history →
  copy_selection_held env shortcuts currentTool ↔
  ∃ t i s,
    currentTool = Some t ∧ inkIsSelection env t = true ∧
    get_keyboard_shortcut_for_spriteeditor
      SPRITEDITOR_ACTION_COPYSELECTION shortcuts = Some (i, s) ∧
    is_pressed_from_key_array env s = true.
Proof.
  intros ->. unfold copy_selection_held.
  assert (Hany : ∀ i s,
    get_keyboard_shortcut_for_spriteeditor SPRITEDITOR_ACTION_COPYSELECTION
      (registry_of getCommandByName history) = Some (i, s) →
    context_allows env s).
  { intros i s (Hi & Hs & _)%list_find_Some. left.
    pose proof (registry_keycontext history) as Hall.
    rewrite Forall_lookup in Hall. apply (Hall _ _ Hi).
    apply andb_True in Hs as [Hty%bool_decide_spec _]. by rewrite Hty. }
  split.
  - intros (t & i & s & Ht & Hink & Hfind & Hacc).
    exists t, i, s. split_and!; try done.
    apply is_pressed_from_key_array_iff. split; [done|]. by eapply Hany.
  - intros (t & i & s & Ht & Hink & Hfind & Hp).
    exists t, i, s. split_and!; try done.
    by apply is_pressed_from_key_array_iff in Hp as [? _].
Qed.

(** [get_selected_quicktool] in terms of the lookups that it calls. *)
Lemma get_selected_quicktool_lookup env shortcuts (currentTool : option Tool) :
  let result := get_selected_quicktool env shortcuts currentTool in
  (copy_selection_held env shortcuts currentTool → result = None) ∧
  (¬ copy_selection_held env shortcuts currentTool →
     (∀ t, result = Some t ↔
        ∃ before after,
          toolbox env = before ++ t :: after ∧
          quicktool_pressed env shortcuts t ∧
          Forall (λ u, ¬ quicktool_pressed env shortcuts u) before) ∧
     (result = None ↔
        Forall (λ u, ¬ quicktool_pressed env shortcuts u) (toolbox env))) ∧
  (∀ history, shortcuts = registry_of getCommandByName history →
     (copy_selection_held env shortcuts currentTool ↔
      ∃ t i s,
        currentTool = Some t ∧ inkIsSelection env t = true ∧
        get_keyboard_shortcut_for_spriteeditor
          SPRITEDITOR_ACTION_COPYSELECTION shortcuts = Some (i, s) ∧
        is_pressed_from_key_array env s = true)).
Proof.
  intros result. subst result.
  split_and!; [| |apply copy_selection_held_pressed];
  unfold get_selected_quicktool, copy_selection_held, accel_matches_key_array,
    get_accel_to_copy_selection, get_accel_to_spriteeditor.
  - intros (t & i & s & -> & Hink & Hfind & a & Ha & Hchk).
    by rewrite Hink, Hfind, Ha, Hchk.
  - intros Hnot.
    assert (match currentTool with
            | Some t =>
                inkIsSelection env t &&
                match
                  match get_keyboard_shortcut_for_spriteeditor
                          SPRITEDITOR_ACTION_COPYSELECTION shortcuts with
                  | Some (_, shortcut) => accel shortcut
                  | None => None
                  end
                with
                | Some a => checkFromAllegroKeyArray a (keyArray env)
                | None => false
                end
            | None => false
            end = false) as ->.
    { destruct currentTool as [t|]; [|done].
      destruct (inkIsSelection env t) eqn:Hink; [|done]. simpl.
      destruct (get_keyboard_shortcut_for_spriteeditor _ shortcuts)
        as [[i s]|] eqn:Hfind; [|done].
      destruct (accel s) as [a|] eqn:Ha; [|done].
      destruct (checkFromAllegroKeyArray a (keyArray env)) eqn:Hchk; [|done].
      exfalso. apply Hnot. exists t, i, s. split_and!; try done. by exists a. }
    split.
    + intros t. apply quicktool_scan_Some.
    + apply quicktool_scan_None.
Qed.

Lemma identity_of_IdQuicktool s t :
  identity_of s = Some (IdQuicktool t) ↔ type s = EditorQuicktool ∧ tool s = t.
Proof.
  unfold identity_of.
  destruct (type s); [destruct (command s), (params s)| | |]; naive_solver.
Qed.

Lemma identity_of_IdSpriteEditor s a :
  identity_of s = Some (IdSpriteEditor a) ↔ type s = SpriteEditor ∧ action s = a.
Proof.
  unfold identity_of.
  destruct (type s); [destruct (command s), (params s)| | |]; naive_solver.
Qed.

(** In a registry without two shortcuts of one identity, the shortcut that
    a lookup finds for an identity is the one shortcut of the registry with
    the identity. *)
Lemma lookup_identity_unique shortcuts k (P : Shortcut → Prop) :
  unique_identities shortcuts →
  (∃ i s, lookup_identity k shortcuts = Some (i, s) ∧ P s) ↔
  Exists (λ s, identity_of s = Some k ∧ P s) shortcuts.
Proof.
  intros Huniq. rewrite Exists_exists. unfold lookup_identity. split.
  - intros (i & s & (Hi & Hs & _)%list_find_Some & HP).
    exists s. split; [by eapply list_elem_of_lookup_2|done].
  - intros (s' & Hin & Hid & HP).
    destruct (list_find_elem_of (λ s, identity_of s = Some k) shortcuts s' Hin Hid)
      as [[i s] Hfind].
    exists i, s. split; [done|].
    apply list_find_Some in Hfind as (Hi & Hs & _).
    apply list_elem_of_lookup_1 in Hin as [j Hj].
    assert (i = j) as -> by by eapply Huniq. by simplify_eq.
Qed.

Lemma quicktool_shortcut_pressed_lookup env shortcuts t :
  unique_identities shortcuts →
  quicktool_shortcut_pressed env shortcuts t ↔ quicktool_pressed env shortcuts t.
Proof.
  intros Huniq. unfold quicktool_shortcut_pressed, quicktool_pressed.
  rewrite get_keyboard_shortcut_for_quicktool_identity.
  rewrite (lookup_identity_unique shortcuts (IdQuicktool (Some t))
             (λ s, is_pressed_from_key_array env s = true) Huniq).
  apply Exists_proper; [|done]. intros s.
  rewrite identity_of_IdQuicktool. tauto.
Qed.

Lemma copy_selection_shortcut_held_lookup env shortcuts (currentTool : option Tool) :
  unique_identities shortcuts →
  copy_selection_shortcut_held env shortcuts currentTool ↔
  copy_selection_held env shortcuts currentTool.
Proof.
  intros Huniq. unfold copy_selection_shortcut_held, copy_selection_held.
  rewrite get_keyboard_shortcut_for_spriteeditor_identity.
  pose proof (lookup_identity_unique shortcuts
                (IdSpriteEditor SPRITEDITOR_ACTION_COPYSELECTION)
                (λ s, accel_matches_key_array s (keyArray env)) Huniq) as Hlookup.
  assert (Exists (λ s, type s = SpriteEditor ∧
                       action s = SPRITEDITOR_ACTION_COPYSELECTION ∧
                       accel_matches_key_array s (keyArray env)) shortcuts ↔
          Exists (λ s, identity_of s =
                         Some (IdSpriteEditor SPRITEDITOR_ACTION_COPYSELECTION) ∧
                       accel_matches_key_array s (keyArray env)) shortcuts) as Hex.
  { apply Exists_proper; [|done]. intros s.
    rewrite identity_of_IdSpriteEditor. tauto. }
  split.
  - intros (t & Ht & Hink & (i & s & Hfind & Hacc)%Hex%Hlookup).
    by exists t, i, s.
  - intros (t & i & s & Ht & Hink & Hfind & Hacc).
    exists t. split_and!; [done..|]. apply Hex, Hlookup. by exists i, s.
Qed.

(** C5: in the registry that registrations built, [get_selected_quicktool]
    answers "no quick tool" at once when the ink of the current tool is a
    selection ink and the accelerator of the copy selection shortcut of the
    registry matches the key array, whatever quick tool keys are held as
    well; otherwise it answers the first tool, in the order of the tool box,
    that has a quick tool shortcut in the registry which is pressed in the
    key array (the key context counts), and no tool when there is none.  The
    key context of the copy selection shortcut is [Any], so that the match of
    its accelerator is the match of the shortcut. *)
Theorem get_selected_quicktool_spec env history (currentTool : option Tool) :
  let shortcuts := registry_of getCommandByName history in
  let result := get_selected_quicktool env shortcuts currentTool in
  let held := copy_selection_shortcut_held env shortcuts currentTool in
  let pressed := quicktool_shortcut_pressed env shortcuts in
  (held → result = None) ∧
  (¬ held →
     (∀ t, result = Some t ↔
        ∃ before after,
          toolbox env = before ++ t :: after ∧
          pressed t ∧ Forall (λ u, ¬ pressed u) before) ∧
     (result = None ↔ Forall (λ u, ¬ pressed u) (toolbox env))) ∧
  (held ↔
   ∃ t, currentTool = Some t ∧ inkIsSelection env t = true ∧
        Exists (λ s, type s = SpriteEditor ∧
                     action s = SPRITEDITOR_ACTION_COPYSELECTION ∧
                     is_pressed_from_key_array env s = true) shortcuts).
Proof.
  intros shortcuts result held pressed.
  pose proof (registry_unique history) as Huniq. fold shortcuts in Huniq.
  pose proof (get_selected_quicktool_lookup env shortcuts currentTool)
    as (Hheld & Hscan & _).
  cbv zeta in Hheld, Hscan. fold result in Hheld, Hscan.
  assert (Hh : held ↔ copy_selection_held env shortcuts currentTool).
  { by apply copy_selection_shortcut_held_lookup. }
  assert (Hp : ∀ t, pressed t ↔ quicktool_pressed env shortcuts t).
  { intros t. by apply quicktool_shortcut_pressed_lookup. }
  assert (Hnp : ∀ tools : list Tool,
    Forall (λ u, ¬ pressed u) tools ↔
    Forall (λ u, ¬ quicktool_pressed env shortcuts u) tools).
  { intros tools. apply Forall_proper; [|done]. intros u. by rewrite Hp. }
  split_and!.
  - intros Hc. by apply Hheld, Hh.
  - intros Hc. rewrite Hh in Hc. destruct (Hscan Hc) as [Hsome Hnone]. split.
    + intros t. rewrite Hsome. split.
      * intros (before & after & Hbox & Ht & Hb).
        exists before, after. by rewrite Hp, Hnp.
      * intros (before & after & Hbox & Ht & Hb).
        exists before, after. by rewrite <- Hp, <- Hnp.
    + by rewrite Hnone, Hnp.
  - unfold held, copy_selection_shortcut_held.
    pose proof (registry_keycontext history) as Hany. fold shortcuts in Hany.
    rewrite Forall_forall in Hany.
    assert (Hex :
      Exists (λ s, type s = SpriteEditor ∧
                   action s = SPRITEDITOR_ACTION_COPYSELECTION ∧
                   accel_matches_key_array s (keyArray env)) shortcuts ↔
      Exists (λ s, type s = SpriteEditor ∧
                   action s = SPRITEDITOR_ACTION_COPYSELECTION ∧
                   is_pressed_from_key_array env s = true) shortcuts).
    { rewrite !Exists_exists. split.
      - intros (s & Hin & Hty & Hact & Hacc). exists s. split_and!; try done.
        apply is_pressed_from_key_array_iff. split; [done|]. left.
        apply (Hany s Hin). by rewrite Hty.
      - intros (s & Hin & Hty & Hact & Hpr). exists s. split_and!; try done.
        by apply is_pressed_from_key_array_iff in Hpr as [? _]. }
    split; intros (t & Ht & Hink & Hs); exists t;
      (split; [exact Ht|]); (split; [exact Hink|]); by apply Hex.
Qed.

(** ** More on the registry *)

Lemma list_find_insert_same {A} (P : A → Prop) `{∀ x, Decision (P x)}
    (l : list A) i x y :
  list_find P l = Some (i, x) → P y →
  list_find P (<[i := y]> l) = Some (i, y).
Proof.
  intros (Hi & Hx & Hbefore)%list_find_Some Hy.
  apply list_find_Some. split_and!; [|done|].
  - apply list_lookup_insert_eq. by eapply lookup_lt_Some.
  - intros j z Hj Hlt. rewrite list_lookup_insert_ne in Hj by lia.
    by eapply Hbefore.
Qed.

Lemma list_find_snoc_None {A} (P : A → Prop) `{∀ x, Decision (P x)}
    (l : list A) y :
  list_find P l = None → P y →
  list_find P (l ++ [y]) = Some (length l, y).
Proof.
  intros Hnone Hy. rewrite list_find_app_r by done. simpl.
  by rewrite decide_True.
Qed.

Lemma list_find_insert_other {A} (P : A → Prop) `{∀ x, Decision (P x)}
    (l : list A) i x y :
  l !! i = Some x → ¬ P x → ¬ P y →
  list_find P (<[i := y]> l) = list_find P l.
Proof.
  revert i. induction l as [|z l IH]; intros [|i] Hi Hx Hy; simplify_eq/=.
  - by rewrite !decide_False.
  - destruct (decide (P z)); [done|]. by rewrite (IH i).
Qed.

Lemma list_find_snoc_other {A} (P : A → Prop) `{∀ x, Decision (P x)}
    (l : list A) y :
  ¬ P y → list_find P (l ++ [y]) = list_find P l.
Proof.
  intros Hy. induction l as [|z l IH]; simpl.
  - by rewrite decide_False.
  - destruct (decide (P z)); [done|]. by rewrite IH.
Qed.

Lemma registered_accel_unfold shortcuts r :
  registered_accel getCommandByName shortcuts r =
  match registered_identity getCommandByName r ≫=
          (λ k, lookup_identity k shortcuts) with
  | Some (i, s) => accel (add_shortcut (chord_string r) s)
  | None => accel (add_shortcut (chord_string r) (new_shortcut getCommandByName r))
  end.
Proof.
  destruct r as [str name p kc|str t|str t|str a]; simpl.
  - unfold add_keyboard_shortcut_to_execute_command.
    destruct (getCommandByName name) as [c|] eqn:Hc; simpl.
    + rewrite (get_keyboard_shortcut_for_command_identity _ c) by done.
      by destruct (lookup_identity _ shortcuts) as [[i s]|].
    + unfold get_keyboard_shortcut_for_command. by rewrite Hc.
  - unfold add_keyboard_shortcut_to_change_tool.
    rewrite get_keyboard_shortcut_for_tool_identity.
    by destruct (lookup_identity _ shortcuts) as [[i s]|].
  - unfold add_keyboard_shortcut_to_quicktool.
    rewrite get_keyboard_shortcut_for_quicktool_identity.
    by destruct (lookup_identity _ shortcuts) as [[i s]|].
  - unfold add_keyboard_shortcut_to_spriteeditor.
    rewrite get_keyboard_shortcut_for_spriteeditor_identity.
    by destruct (lookup_identity _ shortcuts) as [[i s]|].
Qed.

(** After a registration for an identity, the lookup of the identity finds
    the shortcut whose accelerator the registration returned. *)
Lemma lookup_identity_register shortcuts r k :
  registered_identity getCommandByName r = Some k →
  ∃ i b, lookup_identity k (register getCommandByName shortcuts r) = Some (i, b) ∧
         accel b = registered_accel getCommandByName shortcuts r.
Proof.
  intros Hk. rewrite register_unfold, registered_accel_unfold, Hk. simpl.
  destruct (lookup_identity k shortcuts) as [[i s]|] eqn:Hfind.
  - exists i, (add_shortcut (chord_string r) s). split; [|done].
    unfold lookup_identity in *.
    eapply list_find_insert_same; [exact Hfind|].
    apply list_find_Some in Hfind as (_ & Hs & _).
    by rewrite identity_of_add_shortcut.
  - exists (length shortcuts),
      (add_shortcut (chord_string r) (new_shortcut getCommandByName r)).
    split; [|done].
    apply list_find_snoc_None; [done|].
    by rewrite identity_of_add_shortcut, identity_of_new_shortcut.
Qed.

(** A registration for another identity leaves the lookup as it is. *)
Lemma lookup_identity_register_other shortcuts r k :
  registered_identity getCommandByName r ≠ Some k →
  lookup_identity k (register getCommandByName shortcuts r) =
  lookup_identity k shortcuts.
Proof.
  intros Hk.
  destruct (register_cases shortcuts r) as
    [(i0 & s0 & k0 & Hk0 & Hi0 & Hs0 & ->)|[_ ->]].
  - apply (list_find_insert_other _ _ _ s0); [done|..].
    + rewrite Hs0. congruence.
    + rewrite identity_of_add_shortcut, Hs0. congruence.
  - apply list_find_snoc_other.
    by rewrite identity_of_add_shortcut, identity_of_new_shortcut.
Qed.

(** X1: what a registration returns is what the accessors answer next: right
    after a registration, the accessor of the accelerator (the lookup, for a
    quick tool) of what was registered gives the accelerator that the
    registration returned.  For a command, the name has to be the name of a
    command. *)
Theorem accessor_after_registration shortcuts str :
  (∀ t,
     let result := add_keyboard_shortcut_to_change_tool str t shortcuts in
     get_accel_to_change_tool t result.1 = result.2) ∧
  (∀ t,
     let result := add_keyboard_shortcut_to_quicktool str t shortcuts in
     ∃ i b, get_keyboard_shortcut_for_quicktool t result.1 = Some (i, b) ∧
            accel b = result.2) ∧
  (∀ a,
     let result := add_keyboard_shortcut_to_spriteeditor str a shortcuts in
     get_accel_to_spriteeditor a result.1 = result.2) ∧
  (∀ name p kc c,
     getCommandByName name = Some c →
     let result := add_keyboard_shortcut_to_execute_command getCommandByName
                     str name p kc shortcuts in
     get_accel_to_execute_command getCommandByName name p result.1 = result.2).
Proof.
  split_and!.
  - intros t result.
    destruct (lookup_identity_register shortcuts (RegChangeTool str t) _ eq_refl)
      as (i & b & Hfind & Hb).
    unfold get_accel_to_change_tool.
    rewrite get_keyboard_shortcut_for_tool_identity.
    simpl in Hfind. fold result in Hfind. by rewrite Hfind.
  - intros t result.
    destruct (lookup_identity_register shortcuts (RegQuicktool str t) _ eq_refl)
      as (i & b & Hfind & Hb).
    exists i, b. by rewrite get_keyboard_shortcut_for_quicktool_identity.
  - intros a result.
    destruct (lookup_identity_register shortcuts (RegSpriteEditor str a) _ eq_refl)
      as (i & b & Hfind & Hb).
    unfold get_accel_to_spriteeditor.
    rewrite get_keyboard_shortcut_for_spriteeditor_identity.
    simpl in Hfind. fold result in Hfind. by rewrite Hfind.
  - intros name p kc c Hc result.
    destruct (lookup_identity_register shortcuts
                (RegExecuteCommand str name p kc) (IdCommand c (default ∅ p)))
      as (i & b & Hfind & Hb).
    { simpl. by rewrite Hc. }
    unfold get_accel_to_execute_command.
    rewrite (get_keyboard_shortcut_for_command_identity _ c) by done.
    simpl in Hfind. fold result in Hfind. by rewrite Hfind.
Qed.

(** X2: a name that is not the name of a command.  Each registration under
    the name adds a shortcut without a command at the end of the registry
    and returns its accelerator, and the lookup and the accessor of the name
    answer [NULL] all the same. *)
Theorem unknown_command_registration shortcuts str name p kc :
  getCommandByName name = None →
  let result := add_keyboard_shortcut_to_execute_command getCommandByName
                  str name p kc shortcuts in
  (∃ b, result.1 = shortcuts ++ [b] ∧
        type b = ExecuteCommand ∧ command b = None ∧
        params b = Some (default ∅ p) ∧ keycontext b = kc ∧
        accel b = Some (addKeysFromString str accel_new)) ∧
  result.2 = Some (addKeysFromString str accel_new) ∧
  (∀ p', get_keyboard_shortcut_for_command getCommandByName name p' result.1 = None ∧
         get_accel_to_execute_command getCommandByName name p' result.1 = None).
Proof.
  intros Hc result. subst result.
  unfold add_keyboard_shortcut_to_execute_command, get_accel_to_execute_command,
    get_keyboard_shortcut_for_command.
  rewrite Hc. simpl. rewrite insert_length_snoc. split_and!; [|done..].
  by eexists.
Qed.

(** X3: a registration does not change what the lookups answer for the
    other identities. *)
Theorem registration_keeps_other_lookups shortcuts r :
  let shortcuts' := register getCommandByName shortcuts r in
  let registered := registered_identity getCommandByName r in
  (∀ t, registered ≠ Some (IdTool t) →
     get_keyboard_shortcut_for_tool t shortcuts' =
     get_keyboard_shortcut_for_tool t shortcuts) ∧
  (∀ t, registered ≠ Some (IdQuicktool t) →
     get_keyboard_shortcut_for_quicktool t shortcuts' =
     get_keyboard_shortcut_for_quicktool t shortcuts) ∧
  (∀ a, registered ≠ Some (IdSpriteEditor a) →
     get_keyboard_shortcut_for_spriteeditor a shortcuts' =
     get_keyboard_shortcut_for_spriteeditor a shortcuts) ∧
  (∀ name p,
     (∀ c, getCommandByName name = Some c →
           registered ≠ Some (IdCommand c (default ∅ p))) →
     get_keyboard_shortcut_for_command getCommandByName name p shortcuts' =
     get_keyboard_shortcut_for_command getCommandByName name p shortcuts).
Proof.
  intros shortcuts' registered. subst shortcuts' registered. split_and!.
  - intros t Ht. rewrite !get_keyboard_shortcut_for_tool_identity.
    by apply lookup_identity_register_other.
  - intros t Ht. rewrite !get_keyboard_shortcut_for_quicktool_identity.
    by apply lookup_identity_register_other.
  - intros a Ha. rewrite !get_keyboard_shortcut_for_spriteeditor_identity.
    by apply lookup_identity_register_other.
  - intros name p Hname.
    destruct (getCommandByName name) as [c|] eqn:Hc.
    + rewrite !(get_keyboard_shortcut_for_command_identity _ c) by done.
      apply lookup_identity_register_other. by apply Hname.
    + unfold get_keyboard_shortcut_for_command. by rewrite Hc.
Qed.

(** X4: a registration removes no shortcut and moves none; the shortcuts
    that are there keep their type, command, parameters, tool, action and
    key context, and only the shortcut of the registered identity gets keys
    added.  The registry grows by one shortcut at most. *)
Theorem registration_keeps_shortcuts shortcuts r :
  let shortcuts' := register getCommandByName shortcuts r in
  length shortcuts ≤ length shortcuts' ≤ S (length shortcuts) ∧
  ∀ i s, shortcuts !! i = Some s →
    ∃ s', shortcuts' !! i = Some s' ∧
          type s' = type s ∧ command s' = command s ∧ params s' = params s ∧
          tool s' = tool s ∧ action s' = action s ∧
          keycontext s' = keycontext s ∧
          (s' = s ∨
           identity_of s = registered_identity getCommandByName r ∧
           s' = add_shortcut (chord_string r) s).
Proof.
  intros shortcuts'. subst shortcuts'.
  destruct (register_cases shortcuts r) as
    [(i0 & s0 & k0 & Hk0 & Hi0 & Hs0 & ->)|[_ ->]].
  - rewrite length_insert. split; [lia|].
    intros i s Hi. destruct (decide (i = i0)) as [->|Hne].
    + assert (s = s0) as -> by congruence.
      exists (add_shortcut (chord_string r) s0).
      split_and!; try done.
      * apply list_lookup_insert_eq. by eapply lookup_lt_Some.
      * right. by rewrite Hs0, Hk0.
    + exists s. rewrite list_lookup_insert_ne by done. split_and!; try done.
      by left.
  - rewrite length_app. simpl. split; [lia|].
    intros i s Hi. exists s. split_and!; try done; [|by left].
    rewrite lookup_app_l; [done|]. by eapply lookup_lt_Some.
Qed.

(** ** More on the handler of key-down messages *)

Lemma list_find_pressed_None env msg shortcuts :
  list_find (λ s, is_pressed env msg s) shortcuts = None ↔
  Forall (λ s, is_pressed env msg s = false) shortcuts.
Proof.
  rewrite list_find_None. apply Forall_proper; [|done].
  intros s. destruct (is_pressed env msg s); simpl; naive_solver.
Qed.

(** X5: a key-down message has one action at most, a selection of a tool or
    an execution of a command; the handler answers [true] exactly when there
    is one; what it does starts with the end of the menu loops; and it does
    nothing at all exactly when a foreground window is on top or no shortcut
    is pressed. *)
Theorem key_down_one_action env msg shortcuts :
  let result := onProcessMessage_KeyDown env msg shortcuts in
  let actions := length (executions result.1) + length (selections result.1) in
  actions ≤ 1 ∧
  (result.2 = ReturnTrue ↔ actions = 1) ∧
  (result.1 ≠ [] → head result.1 = Some CancelMenuLoop) ∧
  (result.1 = [] ↔
     foreground_window_on_top env = true ∨
     Forall (λ s, is_pressed env msg s = false) shortcuts).
Proof.
  intros result actions. subst actions result.
  unfold onProcessMessage_KeyDown.
  destruct (foreground_window_on_top env) eqn:Htop.
  { simpl. split_and!; [lia|split; [done|lia]|done|]. split; [by left|done]. }
  destruct (list_find _ shortcuts) as [[i s]|] eqn:Hfind.
  - assert (¬ Forall (λ s, is_pressed env msg s = false) shortcuts) as Hsome.
    { rewrite <- list_find_pressed_None. congruence. }
    destruct (type s); [destruct (main_window_reached env _)| | |]; simpl;
      (split_and!; [lia|split; (done || lia)|done|]);
      (split; [done|intros [?|?]; done]).
  - apply list_find_pressed_None in Hfind. simpl.
    split_and!; [lia|split; [done|lia]|done|]. split; [by right|done].
Qed.

Lemma get_command_from_key_message_hit env msg shortcuts i s :
  list_find (λ s, is_pressed env msg s) shortcuts = Some (i, s) →
  type s = ExecuteCommand →
  get_command_from_key_message env msg shortcuts = Some (command s, params s).
Proof.
  revert i. induction shortcuts as [|x rest IH]; intros i; simpl; [done|].
  destruct (decide (is_pressed env msg x)) as [Hx|Hx].
  - intros [= <- <-] Hty. apply Is_true_true in Hx.
    by rewrite Hx, Hty, bool_decide_eq_true_2.
  - apply Is_true_false in Hx. rewrite Hx, andb_false_r.
    destruct (list_find _ rest) as [[j y]|] eqn:Hrest; [|done].
    intros [= <- <-] Hty. by eapply IH.
Qed.

(** X6: the command that a key-down message executes is the command that
    [get_command_from_key_message] answers for the message, with the same
    parameters. *)
Theorem executed_command_is_resolved env msg shortcuts c p :
  (c, p) ∈ executions (onProcessMessage_KeyDown env msg shortcuts).1 →
  get_command_from_key_message env msg shortcuts = Some (c, p).
Proof.
  unfold onProcessMessage_KeyDown.
  destruct (foreground_window_on_top env); [by intros ?%elem_of_nil|].
  destruct (list_find _ shortcuts) as [[i s]|] eqn:Hfind;
    [|by intros ?%elem_of_nil].
  destruct (type s) eqn:Hty; simpl; try by intros ?%elem_of_nil.
  destruct (main_window_reached env _); simpl; [|by intros ?%elem_of_nil].
  intros [= -> ->]%list_elem_of_singleton.
  by eapply get_command_from_key_message_hit.
Qed.

Lemma collect_possibles_pressed env msg shortcuts (tools : list Tool) t :
  t ∈ collect_possibles env msg shortcuts tools →
  t ∈ tools ∧ tool_shortcut_pressed env msg shortcuts t.
Proof.
  induction tools as [|u rest IH]; simpl; [by intros ?%elem_of_nil|].
  assert (Hrest : t ∈ collect_possibles env msg shortcuts rest →
    t ∈ u :: rest ∧ tool_shortcut_pressed env msg shortcuts t).
  { intros [??]%IH. split; [by right|done]. }
  destruct (get_keyboard_shortcut_for_tool (Some u) shortcuts)
    as [[i s]|] eqn:Hfind; [|done].
  destruct (is_pressed env msg s) eqn:Hp; [|done].
  intros [->|Hin]%elem_of_cons; [|by apply Hrest].
  split; [by left|].
  rewrite get_keyboard_shortcut_for_tool_identity in Hfind.
  apply list_find_Some in Hfind as (Hi & [??]%identity_of_IdTool & _).
  apply Exists_exists. exists s. split; [by eapply list_elem_of_lookup_2|done].
Qed.

(** X7: the tool that a key-down message selects has a [ChangeTool]
    shortcut that the message presses. *)
Theorem selected_tool_was_pressed env msg shortcuts (c : Tool) :
  Some c ∈ selections (onProcessMessage_KeyDown env msg shortcuts).1 →
  tool_shortcut_pressed env msg shortcuts c.
Proof.
  unfold onProcessMessage_KeyDown.
  destruct (foreground_window_on_top env); [by intros ?%elem_of_nil|].
  destruct (list_find _ shortcuts) as [[i s]|] eqn:Hfind;
    [|by intros ?%elem_of_nil].
  apply list_find_Some in Hfind as (Hi & Hp%Is_true_true & _).
  destruct (type s) eqn:Hty; simpl; try by intros ?%elem_of_nil.
  - destruct (main_window_reached env _); by intros ?%elem_of_nil.
  - intros Hsel%list_elem_of_singleton. symmetry in Hsel.
    apply select_this_tool_cases in Hsel as [Htool|Hin].
    + apply Exists_exists. exists s.
      split; [by eapply list_elem_of_lookup_2|done].
    + by apply collect_possibles_pressed in Hin as [_ ?].
Qed.

(** X8: a key that two tools or more share always changes the tool.  In a
    registry that registrations built, with a tool box without repetition
    and the tool of the pressed shortcut in it, the handler selects a
    candidate that is not the current tool whenever there are two
    candidates or more. *)
Theorem shared_key_changes_tool env msg history pre s post t :
  let shortcuts := registry_of getCommandByName history in
  let possibles := candidates env msg shortcuts in
  foreground_window_on_top env = false →
  first_hit env msg shortcuts pre s post →
  type s = ChangeTool →
  tool s = Some t →
  t ∈ toolbox env →
  NoDup (toolbox env) →
  2 ≤ length possibles →
  ∃ c, onProcessMessage_KeyDown env msg shortcuts =
         ([CancelMenuLoop; SelectTool (Some c)], ReturnTrue) ∧
       c ∈ possibles ∧ c ≠ getCurrentTool env.
Proof.
  intros shortcuts possibles Htop Hhit Hty Htool Hbox Hnodup Hlen.
  assert (onProcessMessage_KeyDown env msg shortcuts =
          ([CancelMenuLoop; SelectTool (select_this_tool env s possibles)],
           ReturnTrue)) as ->.
  { by eapply onProcessMessage_KeyDown_ChangeTool. }
  assert (NoDup possibles) as Hnd by by apply NoDup_filter.
  assert (t ∈ possibles) as Hin.
  { apply list_elem_of_filter. split; [|done].
    apply Exists_exists. exists s. destruct Hhit as (Heq & _ & Hp).
    split; [|done]. fold shortcuts in Heq. rewrite Heq. set_solver. }
  unfold select_this_tool. rewrite bool_decide_eq_true_2 by done.
  rewrite list_find_other_visible.
  destruct (list_find (other_visible_tool env) possibles) as [[i c]|] eqn:Hother.
  { apply list_find_Some in Hother as (Hi & [Hne _] & _).
    exists c. split_and!; [done| |done]. by eapply list_elem_of_lookup_2. }
  destruct (list_find (λ u, u = getCurrentTool env) possibles)
    as [[i u]|] eqn:Hcur.
  - apply list_find_Some in Hcur as (Hi & -> & _).
    pose proof (lookup_lt_Some _ _ _ Hi) as Hlt.
    assert ((i + 1) `mod` length possibles < length possibles) as Hnext.
    { apply Nat.mod_upper_bound. lia. }
    destruct (lookup_lt_is_Some_2 _ _ Hnext) as [c Hc].
    exists c. rewrite Hc. split_and!; [done|by eapply list_elem_of_lookup_2|].
    intros ->.
    assert ((i + 1) `mod` length possibles = i) as Heq.
    { by eapply NoDup_lookup. }
    destruct (decide (i + 1 < length possibles)) as [Hsmall|Hlast].
    + rewrite Nat.mod_small in Heq by done. lia.
    + assert (i + 1 = length possibles) as Hn by lia.
      rewrite Hn, Nat.Div0.mod_same in Heq. lia.
  - exists t. rewrite Htool. split_and!; [done..|].
    intros ->. apply list_find_None in Hcur.
    rewrite Forall_forall in Hcur. by apply (Hcur _ Hin).
Qed.

(** ** Invariants of the registry *)

Lemma register_length shortcuts r :
  length (register getCommandByName shortcuts r) ≤ S (length shortcuts).
Proof.
  destruct (register_cases shortcuts r) as
    [(i0 & s0 & k0 & _ & _ & _ & ->)|[_ ->]].
  - rewrite length_insert. lia.
  - rewrite length_app. simpl. lia.
Qed.

Lemma registry_length history :
  length (registry_of getCommandByName history) ≤ length history.
Proof.
  induction history as [|r history IH] using rev_ind; [done|].
  rewrite registry_of_snoc, length_app. simpl.
  pose proof (register_length (registry_of getCommandByName history) r). lia.
Qed.

Lemma register_payload shortcuts r :
  Forall (λ s, type s ≠ ExecuteCommand → command s = None ∧ params s = None)
    shortcuts →
  Forall (λ s, type s ≠ ExecuteCommand → command s = None ∧ params s = None)
    (register getCommandByName shortcuts r).
Proof.
  intros Hall.
  destruct (register_cases shortcuts r) as
    [(i & s & k & _ & Hi & _ & ->)|[_ ->]].
  - apply Forall_insert; [done|].
    rewrite Forall_lookup in Hall. apply (Hall _ _ Hi).
  - apply Forall_app. split; [done|]. constructor; [|done].
    by destruct r.
Qed.

Lemma registry_payload history :
  Forall (λ s, type s ≠ ExecuteCommand → command s = None ∧ params s = None)
    (registry_of getCommandByName history).
Proof. apply registry_ind; [done|]. intros ???. by apply register_payload. Qed.

(** X9: what holds of the registry at all times, from the empty registry on
    and through every registration.  No two shortcuts have the same identity;
    every shortcut has its accelerator; a shortcut of a command has its
    parameters; the other shortcuts have the key context [Any], no command
    and no parameters; and there are not more shortcuts than registrations. *)
Theorem registry_invariants history :
  let shortcuts := registry_of getCommandByName history in
  unique_identities shortcuts ∧
  Forall (λ s, is_Some (accel s)) shortcuts ∧
  Forall (λ s, type s = ExecuteCommand → is_Some (params s)) shortcuts ∧
  Forall (λ s, type s ≠ ExecuteCommand →
               keycontext s = Any ∧ command s = None ∧ params s = None)
    shortcuts ∧
  length shortcuts ≤ length history.
Proof.
  intros shortcuts. subst shortcuts. split_and!.
  - apply registry_unique.
  - apply registry_accel.
  - apply registry_params.
  - pose proof (registry_keycontext history) as Hk.
    pose proof (registry_payload history) as Hp.
    rewrite Forall_forall in Hk, Hp. apply Forall_forall.
    intros s Hin Hty. destruct (Hp s Hin Hty). split_and!; [|done..].
    by apply Hk.
  - apply registry_length.
Qed.

(** X10: [get_command_from_key_message] looks at the shortcuts of commands
    only: its answer is the same without the other shortcuts, also when one
    of them is pressed and registered first. *)
Theorem get_command_from_key_message_commands_only env msg shortcuts :
  get_command_from_key_message env msg shortcuts =
  get_command_from_key_message env msg
    (filter (λ s, type s = ExecuteCommand) shortcuts).
Proof.
  induction shortcuts as [|s rest IH]; simpl; [done|].
  rewrite filter_cons.
  destruct (decide (type s = ExecuteCommand)) as [Hty|Hty]; simpl.
  - rewrite (bool_decide_eq_true_2 _ Hty). simpl. by rewrite IH.
  - by rewrite (bool_decide_eq_false_2 _ Hty).
Qed.

(** X11: keys are added, never taken away: under the laws of the
    accelerator, a shortcut that a key message or the key array presses is
    still pressed by it, in the same position, after any registration. *)
Theorem registration_keeps_pressed env msg shortcuts r i s :
  AcceleratorLaws →
  shortcuts !! i = Some s →
  ∃ s', register getCommandByName shortcuts r !! i = Some s' ∧
        (is_pressed env msg s = true → is_pressed env msg s' = true) ∧
        (is_pressed_from_key_array env s = true →
         is_pressed_from_key_array env s' = true).
Proof.
  intros [Hc Hk _] Hi.
  destruct (register_cases shortcuts r) as
    [(i0 & s0 & k0 & _ & Hi0 & _ & ->)|[_ ->]].
  - destruct (decide (i = i0)) as [->|Hne].
    + assert (s = s0) as -> by congruence.
      exists (add_shortcut (chord_string r) s0). split_and!.
      * apply list_lookup_insert_eq. by eapply lookup_lt_Some.
      * rewrite !is_pressed_iff. intros [(a & Ha & Hm) Hctx]. split; [|done].
        exists (addKeysFromString (chord_string r) a). simpl. rewrite Ha.
        split; [done|]. by apply Hc.
      * rewrite !is_pressed_from_key_array_iff.
        intros [(a & Ha & Hm) Hctx]. split; [|done].
        exists (addKeysFromString (chord_string r) a). simpl. rewrite Ha.
        split; [done|]. by apply Hk.
    + exists s. by rewrite list_lookup_insert_ne.
  - exists s. split; [|done].
    rewrite lookup_app_l; [done|]. by eapply lookup_lt_Some.
Qed.

End Properties.

(** * Properties of the rest of the module *)

Section DisplayProperties.

Context `{AO : AcceleratorOps} `{CO : ConfigOps}.
Variable MID : Z → Z → Z → Z.
Variable Display : Type.
Variable createDisplay : Z → Z → Z → option Display.

Open Scope Z_scope.

(** ** The graphics configuration and the display *)

(** X12: the screen scaling that [load_gui_config] reads is between 1 and 4:
    the stored value when it is in that range, 1 for a smaller and 4 for a
    larger one. *)
Theorem load_gui_config_screen_scaling (cfg : Config) :
  MID_law MID →
  let stored := get_config_int cfg "GfxMode" "ScreenScale" 2 in
  let scaling := gfx_screen_scaling (load_gui_config MID cfg) in
  1 ≤ scaling ≤ 4 ∧
  (1 ≤ stored ≤ 4 → scaling = stored) ∧
  (stored < 1 → scaling = 1) ∧
  (4 < stored → scaling = 4).
Proof.
  intros HMID stored scaling. subst scaling. simpl. fold stored.
  rewrite HMID by lia. lia.
Qed.

Lemma try_resolutions_loop_first (before after : list (Z * Z * Z)) w h scale d :
  Forall (λ e, e.1.1 ≠ 0 ∧ fails createDisplay e) before →
  w ≠ 0 → createDisplay w h scale = Some d →
  try_resolutions_loop createDisplay (before ++ (w, h, scale) :: after) =
    Some (d, scale).
Proof.
  intros Hbefore Hw Hd. induction Hbefore as [|[[w' h'] s'] rest [Hw' Hf] _ IH];
    simpl.
  - rewrite (proj2 (Z.eqb_neq w 0)) by done. by rewrite Hd.
  - simpl in *. rewrite (proj2 (Z.eqb_neq w' 0)) by done.
    unfold fails in Hf. simpl in Hf. by rewrite Hf.
Qed.

Lemma try_resolutions_loop_None :
  try_resolutions_loop createDisplay try_resolutions = None ↔
  Forall (fails createDisplay) (take 5 try_resolutions).
Proof.
  clear MID. unfold try_resolutions, fails. simpl.
  rewrite !Forall_cons, Forall_nil. simpl.
  destruct (createDisplay 1024 768 2), (createDisplay 800 600 2),
    (createDisplay 640 480 2), (createDisplay 320 240 1),
    (createDisplay 320 200 1); naive_solver.
Qed.

Lemma configured_display w h scaling :
  (if (0 <? w) && (0 <? h) then createDisplay w h scaling else None) = None ↔
  (0 < w → 0 < h → createDisplay w h scaling = None).
Proof.
  destruct (0 <? w) eqn:Hw; simpl.
  - destruct (0 <? h) eqn:Hh; simpl.
    + apply Z.ltb_lt in Hw, Hh. naive_solver.
    + apply Z.ltb_ge in Hh. split; [|done]. intros _ ??. lia.
  - apply Z.ltb_ge in Hw. split; [|done]. intros _ ??. lia.
Qed.

Lemma screen_scaling_range (cfg : Config) :
  MID_law MID → 1 ≤ gfx_screen_scaling (load_gui_config MID cfg) ≤ 4.
Proof. intros HMID. simpl. rewrite HMID by lia. lia. Qed.

Lemma init_module_gui_unfold (cfg : Config) :
  let config := load_gui_config MID cfg in
  init_module_gui MID createDisplay cfg =
  match
    match (if (0 <? gfx_w config) && (0 <? gfx_h config)
           then createDisplay (gfx_w config) (gfx_h config)
                  (gfx_screen_scaling config)
           else None) with
    | Some d => Some (d, gfx_screen_scaling config)
    | None => try_resolutions_loop createDisplay try_resolutions
    end
  with
  | Some (d, scale) =>
      {| init_result := 0; init_shortcuts := [];
         init_main_display := Some d; init_screen_scaling := scale;
         init_effects :=
           [CreateClipboard; CreateManager; SetTheme] ++
           (if gfx_maximized config then [Maximize] else []) ++
           [SetupScreen true; SaveGuiConfig] |}
  | None =>
      {| init_result := -1; init_shortcuts := [];
         init_main_display := None;
         init_screen_scaling := gfx_screen_scaling config;
         init_effects :=
           [ErrorMessage "Unable to create a user-interface display.\n"] |}
  end.
Proof.
  intros config. unfold init_module_gui. fold config.
  destruct (if (0 <? gfx_w config) && (0 <? gfx_h config) then _ else None)
    as [d|]; [done|].
  by destruct (try_resolutions_loop createDisplay try_resolutions) as [[d s]|].
Qed.

(** X13: [init_module_gui] answers -1 exactly when no display can be
    created, neither the one that the configuration asks for (a width and a
    height above 0) nor one of the five resolutions of the table; then the
    error message is all that it shows.  Otherwise it answers 0.  The registry
    of the shortcuts is empty in both cases. *)
Theorem init_module_gui_result (cfg : Config) :
  let init := init_module_gui MID createDisplay cfg in
  (init_result init = -1 ↔
     configured_fails MID createDisplay cfg ∧
     Forall (fails createDisplay) (take 5 try_resolutions)) ∧
  (init_result init = -1 →
     init_main_display init = None ∧
     init_effects init =
       [ErrorMessage "Unable to create a user-interface display.\n"]) ∧
  (init_result init ≠ -1 →
     init_result init = 0 ∧ is_Some (init_main_display init)) ∧
  init_shortcuts init = [].
Proof.
  intros init. subst init. rewrite init_module_gui_unfold.
  unfold configured_fails. cbv zeta.
  rewrite <- configured_display, <- try_resolutions_loop_None.
  remember (load_gui_config MID cfg) as config eqn:Hconfig. clear Hconfig.
  destruct (if (0 <? gfx_w config) && (0 <? gfx_h config) then _ else None)
    as [d|].
  - split_and!; [split; [done|by intros [??]]|done|by eexists|done].
  - destruct (try_resolutions_loop createDisplay try_resolutions)
      as [[d scale]|].
    + split_and!; [split; [done|by intros [??]]|done|by eexists|done].
    + split_and!; [done|done|done|done].
Qed.

(** X14: which display [init_module_gui] creates.  The display that the
    configuration asks for, when it can be created, and then the screen
    scaling is the one of the configuration; otherwise the first resolution
    of the table, in its order, that can be created, and then the screen
    scaling becomes the scale of that resolution.  The screen scaling is
    between 1 and 4 in the end, and the display is maximized exactly when it
    was created and the configuration says so. *)
Theorem init_module_gui_display (cfg : Config) :
  let init := init_module_gui MID createDisplay cfg in
  let config := load_gui_config MID cfg in
  (∀ d, 0 < gfx_w config → 0 < gfx_h config →
     createDisplay (gfx_w config) (gfx_h config) (gfx_screen_scaling config)
       = Some d →
     init_result init = 0 ∧ init_main_display init = Some d ∧
     init_screen_scaling init = gfx_screen_scaling config) ∧
  (∀ before w h scale after d,
     configured_fails MID createDisplay cfg →
     take 5 try_resolutions = before ++ (w, h, scale) :: after →
     Forall (fails createDisplay) before →
     createDisplay w h scale = Some d →
     init_result init = 0 ∧ init_main_display init = Some d ∧
     init_screen_scaling init = scale) ∧
  (MID_law MID → 1 ≤ init_screen_scaling init ≤ 4) ∧
  (Maximize ∈ init_effects init ↔
     init_result init = 0 ∧ gfx_maximized config = true).
Proof.
  intros init config. subst init.
  pose proof (screen_scaling_range cfg) as Hrange.
  pose proof (configured_display (gfx_w config) (gfx_h config)
                (gfx_screen_scaling config)) as Hconfigured.
  rewrite init_module_gui_unfold. unfold configured_fails. cbv zeta.
  fold config. fold config in Hrange.
  remember config as config' eqn:Hconfig. clear Hconfig config.
  split_and!.
  - intros d Hw Hh Hd.
    rewrite (proj2 (Z.ltb_lt _ _) Hw), (proj2 (Z.ltb_lt _ _) Hh). simpl andb.
    cbv iota. by rewrite Hd.
  - intros before w h scale after d Hcfg Htable Hbefore Hd.
    apply Hconfigured in Hcfg. rewrite Hcfg.
    assert (Forall (λ e : Z * Z * Z, e.1.1 ≠ 0) (before ++ (w, h, scale) :: after))
      as Hnonzero.
    { rewrite <- Htable. unfold try_resolutions. simpl.
      repeat constructor; simpl; lia. }
    apply Forall_app in Hnonzero as [Hnz Hw]. apply Forall_cons in Hw as [Hw _].
    assert (try_resolutions =
            before ++ (w, h, scale) :: (after ++ [(0, 0, 0)])) as ->.
    { change try_resolutions with (take 5 try_resolutions ++ [(0, 0, 0)]).
      rewrite Htable, <- app_assoc. done. }
    rewrite (try_resolutions_loop_first before _ w h scale d); [done| |done..].
    apply Forall_and. by split.
  - intros HMID. specialize (Hrange HMID).
    destruct (if (0 <? gfx_w config') && (0 <? gfx_h config') then _ else None)
      as [d|]; [done|].
    unfold try_resolutions. simpl try_resolutions_loop.
    destruct (createDisplay 1024 768 2); [simpl; lia|].
    destruct (createDisplay 800 600 2); [simpl; lia|].
    destruct (createDisplay 640 480 2); [simpl; lia|].
    destruct (createDisplay 320 240 1); [simpl; lia|].
    destruct (createDisplay 320 200 1); [simpl; lia|]. done.
  - destruct (if (0 <? gfx_w config') && (0 <? gfx_h config') then _ else None)
      as [d|].
    + simpl. destruct (gfx_maximized config'); simpl; set_solver.
    + destruct (try_resolutions_loop createDisplay try_resolutions)
        as [[d scale]|]; simpl.
      * destruct (gfx_maximized config'); simpl; set_solver.
      * set_solver.
Qed.

End DisplayProperties.

(** ** [gui_setup_screen] *)

Section ScreenProperties.

Variable jguiscale : Theme → Z.

Open Scope Z_scope.

(** X15: [gui_setup_screen] sets the scale of the theme to 2 when the screen
    scaling is 1 and the display is larger than 512 by 256, and to 1
    otherwise.  The theme is regenerated exactly when this changes its scale;
    the fonts are loaded again, and the theme of all the widgets is set
    again, exactly when the caller asks for the fonts or the scale changes;
    the configuration is saved at the end in every case. *)
Theorem gui_setup_screen_effects (theme : Theme) (screen_scaling display_w display_h : Z)
    (reload_font : bool) :
  jguiscale_law jguiscale →
  let result := gui_setup_screen jguiscale theme screen_scaling
                  display_w display_h reload_font in
  let changed := guiscale result.1 ≠ guiscale theme in
  (guiscale result.1 = 2 ↔
     screen_scaling = 1 ∧ 512 < display_w ∧ 256 < display_h) ∧
  (guiscale result.1 = 1 ∨ guiscale result.1 = 2) ∧
  (RegenerateTheme ∈ result.2 ↔ changed) ∧
  (ReloadDefaultFont ∈ result.2 ↔ reload_font = true ∨ changed) ∧
  (ReinitThemeForAllWidgets ∈ result.2 ↔ reload_font = true ∨ changed) ∧
  last result.2 = Some SaveGuiConfig.
Proof.
  intros Hj result changed. subst changed result. unfold gui_setup_screen.
  cbv zeta. rewrite !Hj. simpl guiscale.
  assert (((screen_scaling =? 1) && (512 <? display_w) && (256 <? display_h)) = true
          ↔ screen_scaling = 1 ∧ 512 < display_w ∧ 256 < display_h) as Hbig.
  { rewrite !andb_true_iff, Z.eqb_eq, !Z.ltb_lt. tauto. }
  destruct ((screen_scaling =? 1) && (512 <? display_w) && (256 <? display_h));
    (destruct (guiscale theme =? _) eqn:Heq;
       [apply Z.eqb_eq in Heq|apply Z.eqb_neq in Heq]);
    destruct reload_font; simpl;
    (split_and!; [naive_solver lia|lia|set_solver by lia..|done]).
Qed.

(** X16: a second [gui_setup_screen] on the same display, without asking for
    the fonts, loads no font, regenerates nothing and leaves the theme as the
    first one set it. *)
Theorem gui_setup_screen_again (theme : Theme) (screen_scaling display_w display_h : Z)
    (reload_font : bool) :
  jguiscale_law jguiscale →
  let theme' := (gui_setup_screen jguiscale theme screen_scaling
                   display_w display_h reload_font).1 in
  gui_setup_screen jguiscale theme' screen_scaling display_w display_h false =
    (theme', [SetScale screen_scaling; SetDisplay; SaveGuiConfig]).
Proof.
  intros Hj theme'. subst theme'. unfold gui_setup_screen. cbv zeta.
  rewrite !Hj. simpl guiscale.
  destruct (guiscale theme =? _); simpl; by rewrite Z.eqb_refl.
Qed.

End ScreenProperties.

(** ** The positions of the windows *)

Section WindowProperties.

Context `{CO : ConfigOps}.
Variable MID : Z → Z → Z → Z.

Open Scope Z_scope.

Lemma int_sub_range (a b : Z) : int_range (a - b) → int_sub a b = a - b.
Proof.
  unfold int_sub, wrap_int, int_range. intros Hr.
  rewrite Z.mod_small; lia.
Qed.

(** X17: when the window fits in the display, [load_window_pos] gives it
    bounds inside the display, whatever the configuration has: not smaller
    than its bounds before and not larger than the display, with the origin
    at 0 or above. *)
Theorem load_window_pos_inside (cfg : Config) (display_w display_h : Z)
    (bounds : Rect) (section : string) :
  MID_law MID →
  int_range display_w → int_range display_h →
  0 ≤ rect_w bounds ≤ display_w →
  0 ≤ rect_h bounds ≤ display_h →
  let pos := load_window_pos MID cfg display_w display_h bounds section in
  rect_w bounds ≤ rect_w pos ≤ display_w ∧
  rect_h bounds ≤ rect_h pos ≤ display_h ∧
  0 ≤ rect_x pos ∧ rect_x pos + rect_w pos ≤ display_w ∧
  0 ≤ rect_y pos ∧ rect_y pos + rect_h pos ≤ display_h.
Proof.
  intros HMID Hdw Hdh Hw Hh pos. subst pos. unfold load_window_pos. cbv zeta.
  simpl rect_w. simpl rect_h. simpl rect_x. simpl rect_y.
  set (stored := get_config_rect cfg section "WindowPos" bounds).
  rewrite (HMID (rect_w bounds)), (HMID (rect_h bounds)) by lia.
  unfold int_range in *.
  rewrite !int_sub_range by (unfold int_range; lia).
  rewrite !(HMID 0) by lia. lia.
Qed.

(** X18: what [save_window_pos] saves is what [load_window_pos] gives back:
    bounds inside the display that are not smaller than the bounds that the
    window has when it is loaded come back as they were saved. *)
Theorem load_saved_window_pos (cfg : Config) (display_w display_h : Z)
    (saved bounds : Rect) (section : string) :
  MID_law MID → config_rect_law →
  int_range display_w → int_range display_h →
  0 ≤ rect_w bounds ≤ rect_w saved → 0 ≤ rect_h bounds ≤ rect_h saved →
  0 ≤ rect_x saved → rect_x saved + rect_w saved ≤ display_w →
  0 ≤ rect_y saved → rect_y saved + rect_h saved ≤ display_h →
  load_window_pos MID (save_window_pos cfg saved section)
    display_w display_h bounds section = saved.
Proof.
  intros HMID Hcfg Hdw Hdh Hw Hh Hx Hxw Hy Hyh.
  unfold load_window_pos, save_window_pos. cbv zeta. rewrite Hcfg.
  simpl rect_w. simpl rect_h. simpl rect_x. simpl rect_y.
  rewrite (HMID (rect_w bounds)), (HMID (rect_h bounds)) by lia.
  unfold int_range in *.
  rewrite !int_sub_range by (unfold int_range; lia).
  rewrite !(HMID 0) by lia.
  destruct saved as [x y w h]. simpl in *. f_equal; lia.
Qed.

(** ** The layouts of the widgets *)

(** X19: the layout that [saveLayout] saves for a widget with a root window
    is the layout that [loadLayout] answers for it.  For a widget without a
    root window nothing is saved and the empty string is answered. *)
Theorem load_saved_layout (cfg : Config) (widget : Widget) (str : string) :
  config_string_law →
  (is_Some (getRoot widget) →
     loadLayout (saveLayout cfg widget str) widget = str) ∧
  (getRoot widget = None →
     saveLayout cfg widget str = cfg ∧ loadLayout cfg widget = "").
Proof.
  intros Hcfg. unfold loadLayout, saveLayout. split.
  - intros [rootId ->]. apply Hcfg.
  - by intros ->.
Qed.

End WindowProperties.

(** ** The other messages *)

Section MessageProperties.

Context `{AO : AcceleratorOps}.
Variable getCommandByName : string → option Command.
Variable CommandId_Exit CommandId_OpenFile : string.

Lemma open_dropped_files_map (cmd : option Command) (p : Params)
    (files : list string) :
  dom p ⊆ {["filename"]} →
  open_dropped_files cmd p files =
  (λ file, Handled (ExecCommand cmd (Some {["filename" := file]}))) <$> files.
Proof.
  revert p. induction files as [|file rest IH]; intros p Hp; simpl; [done|].
  assert (<["filename" := file]> p = {["filename" := file]}) as ->.
  { apply map_eq. intros k. destruct (decide (k = "filename")) as [->|Hne].
    - by rewrite lookup_insert_eq, lookup_singleton_eq.
    - rewrite lookup_insert_ne, lookup_singleton_ne by done.
      apply not_elem_of_dom. set_solver. }
  f_equal. apply IH. rewrite dom_singleton_L. done.
Qed.

(** X20: the files that are dropped are opened one by one, in their order,
    each with its name as the only parameter, when the foreground window is
    the main window; they are dropped silently when it is not.  The message
    goes on to the default processing in both cases. *)
Theorem drop_files_opens_each (env : Env) (foreground : option nat)
    (files : list string) (shortcuts : list Shortcut) :
  let result := onProcessMessage getCommandByName CommandId_Exit
                  CommandId_OpenFile env foreground
                  (kDropFilesMessage files) shortcuts in
  result.2 = DefaultProcessing ∧
  (foreground = Some (getMainWindow env) →
     result.1 =
       (λ file, Handled (ExecCommand (getCommandByName CommandId_OpenFile)
                           (Some {["filename" := file]}))) <$> files) ∧
  (foreground ≠ Some (getMainWindow env) → result.1 = []).
Proof.
  intros result. subst result. simpl.
  case_bool_decide as Hfg; simpl.
  - split_and!; [done|done|done].
  - split_and!; [done| |done].
    intros _. apply open_dropped_files_map. set_solver.
Qed.

End MessageProperties.

(** ** The symmetries of the strokes *)

Section Symmetries.

Open Scope Z_scope.

Lemma wrap_int_spec (z : Z) :
  int_range (wrap_int z) ∧ ∃ k, wrap_int z = z + k * 2 ^ 32.
Proof.
  unfold wrap_int, int_range.
  pose proof (Z.mod_pos_bound (z + 2 ^ 31) (2 ^ 32) ltac:(lia)) as Hb.
  split; [lia|].
  exists (- ((z + 2 ^ 31) / 2 ^ 32)).
  pose proof (Z.div_mod (z + 2 ^ 31) (2 ^ 32) ltac:(lia)). lia.
Qed.

Lemma wrap_int_id (z : Z) : int_range z → wrap_int z = z.
Proof.
  unfold wrap_int, int_range. intros Hr. rewrite Z.mod_small; lia.
Qed.

(** The mirror of a value: [m - (v - m + adjust)] in [int] arithmetic. *)
Lemma mirror_twice (m adjust v : Z) :
  int_range v →
  int_sub m (int_add (int_sub (int_sub m (int_add (int_sub v m) adjust)) m) adjust)
  = v.
Proof.
  unfold int_sub, int_add. intros Hv.
  destruct (wrap_int_spec (v - m)) as (_ & k1 & ->).
  destruct (wrap_int_spec (v - m + k1 * 2 ^ 32 + adjust)) as (_ & k2 & ->).
  destruct (wrap_int_spec (m - (v - m + k1 * 2 ^ 32 + adjust + k2 * 2 ^ 32)))
    as (_ & k3 & ->).
  set (a := m - (v - m + k1 * 2 ^ 32 + adjust + k2 * 2 ^ 32) + k3 * 2 ^ 32).
  destruct (wrap_int_spec (a - m)) as (_ & k4 & ->).
  destruct (wrap_int_spec (a - m + k4 * 2 ^ 32 + adjust)) as (_ & k5 & ->).
  set (b := a - m + k4 * 2 ^ 32 + adjust + k5 * 2 ^ 32).
  destruct (wrap_int_spec (m - b)) as (Hr & k6 & Heq).
  rewrite Heq in Hr |- *. unfold int_range in *. subst b a. lia.
Qed.

Lemma mirror_exact (m adjust v : Z) :
  - 2 ^ 29 ≤ m ≤ 2 ^ 29 → - 2 ^ 29 ≤ v ≤ 2 ^ 29 → - 1 ≤ adjust ≤ 1 →
  int_sub m (int_add (int_sub v m) adjust) = 2 * m - v - adjust.
Proof.
  intros Hm Hv Ha. unfold int_sub, int_add.
  rewrite (wrap_int_id (v - m)) by (unfold int_range; lia).
  rewrite (wrap_int_id (v - m + adjust)) by (unfold int_range; lia).
  rewrite wrap_int_id by (unfold int_range; lia). lia.
Qed.

Lemma foldl_snoc_fmap {A B} (f : A → B) (l : list A) (acc : list B) :
  foldl (λ acc x, acc ++ [f x]) acc l = acc ++ (f <$> l).
Proof.
  revert acc. induction l as [|x l IH]; intros acc; simpl.
  - by rewrite app_nil_r.
  - rewrite IH. by rewrite <- app_assoc.
Qed.

Lemma HorizontalSymmetry_generateStrokes_fmap m_x brush_w mainStroke strokes :
  HorizontalSymmetry_generateStrokes m_x brush_w mainStroke strokes =
  strokes ++ [mainStroke; mirror_x m_x (Z.rem brush_w 2) <$> mainStroke].
Proof.
  unfold HorizontalSymmetry_generateStrokes. cbv zeta.
  rewrite foldl_snoc_fmap. simpl. by rewrite <- app_assoc.
Qed.

Lemma VerticalSymmetry_generateStrokes_fmap m_y brush_h mainStroke strokes :
  VerticalSymmetry_generateStrokes m_y brush_h mainStroke strokes =
  strokes ++ [mainStroke; mirror_y m_y (Z.rem brush_h 2) <$> mainStroke].
Proof.
  unfold VerticalSymmetry_generateStrokes. cbv zeta.
  rewrite foldl_snoc_fmap. simpl. by rewrite <- app_assoc.
Qed.

Lemma rem_2_range (z : Z) : - 1 ≤ Z.rem z 2 ≤ 1.
Proof.
  pose proof (Z.rem_bound_abs z 2 ltac:(lia)). lia.
Qed.

(** X21: the symmetries add two strokes after the strokes that are there:
    the main stroke, and a stroke with as many points, in the same order.
    The horizontal symmetry keeps the [y] of each point and moves its [x] to
    the other side of [m_x] ([x + x' = 2 m_x - adjust], for coordinates up to
    [2^29]); the vertical symmetry does the same with [y] and [m_y]. *)
Theorem generateStrokes_mirror (m brush : Z) (mainStroke : Stroke)
    (strokes : list Stroke) :
  let adjust := Z.rem brush 2 in
  (∃ stroke2,
     HorizontalSymmetry_generateStrokes m brush mainStroke strokes =
       strokes ++ [mainStroke; stroke2] ∧
     length stroke2 = length mainStroke ∧
     ∀ i pt, mainStroke !! i = Some pt →
       ∃ pt', stroke2 !! i = Some pt' ∧ pt_y pt' = pt_y pt ∧
              (- 2 ^ 29 ≤ m ≤ 2 ^ 29 → - 2 ^ 29 ≤ pt_x pt ≤ 2 ^ 29 →
               pt_x pt + pt_x pt' = 2 * m - adjust)) ∧
  (∃ stroke2,
     VerticalSymmetry_generateStrokes m brush mainStroke strokes =
       strokes ++ [mainStroke; stroke2] ∧
     length stroke2 = length mainStroke ∧
     ∀ i pt, mainStroke !! i = Some pt →
       ∃ pt', stroke2 !! i = Some pt' ∧ pt_x pt' = pt_x pt ∧
              (- 2 ^ 29 ≤ m ≤ 2 ^ 29 → - 2 ^ 29 ≤ pt_y pt ≤ 2 ^ 29 →
               pt_y pt + pt_y pt' = 2 * m - adjust)).
Proof.
  intros adjust. pose proof (rem_2_range brush) as Hadjust. fold adjust in Hadjust.
  unfold Stroke in *. split.
  - exists (mirror_x m adjust <$> mainStroke). split_and!.
    + apply HorizontalSymmetry_generateStrokes_fmap.
    + apply length_fmap.
    + intros i pt Hi. exists (mirror_x m adjust pt). split_and!; [|done|].
      * by rewrite list_lookup_fmap, Hi.
      * intros Hm Hx. simpl. rewrite mirror_exact by done. lia.
  - exists (mirror_y m adjust <$> mainStroke). split_and!.
    + apply VerticalSymmetry_generateStrokes_fmap.
    + apply length_fmap.
    + intros i pt Hi. exists (mirror_y m adjust pt). split_and!; [|done|].
      * by rewrite list_lookup_fmap, Hi.
      * intros Hm Hy. simpl. rewrite mirror_exact by done. lia.
Qed.

(** X22: the mirror of the mirror is the stroke itself: applied to the
    stroke that a symmetry generated, the same symmetry generates the main
    stroke again, for every axis and brush and for all the points that are
    [int] values, also when the subtractions wrap around. *)
Theorem generateStrokes_involution (m brush : Z) (mainStroke : Stroke) :
  Forall (λ pt, int_range (pt_x pt) ∧ int_range (pt_y pt)) mainStroke →
  (∀ stroke2,
     HorizontalSymmetry_generateStrokes m brush mainStroke [] =
       [mainStroke; stroke2] →
     HorizontalSymmetry_generateStrokes m brush stroke2 [] =
       [stroke2; mainStroke]) ∧
  (∀ stroke2,
     VerticalSymmetry_generateStrokes m brush mainStroke [] =
       [mainStroke; stroke2] →
     VerticalSymmetry_generateStrokes m brush stroke2 [] =
       [stroke2; mainStroke]).
Proof.
  intros Hrange. unfold Stroke in *. split.
  - intros stroke2. rewrite !HorizontalSymmetry_generateStrokes_fmap. simpl.
    intros [= <-]. do 2 f_equal. rewrite <- list_fmap_compose.
    rewrite <- (list_fmap_id mainStroke) at 2.
    apply Forall_fmap_ext_1. eapply Forall_impl; [done|].
    intros [x y] [Hx _]. unfold mirror_x. simpl in *.
    by rewrite mirror_twice.
  - intros stroke2. rewrite !VerticalSymmetry_generateStrokes_fmap. simpl.
    intros [= <-]. do 2 f_equal. rewrite <- list_fmap_compose.
    rewrite <- (list_fmap_id mainStroke) at 2.
    apply Forall_fmap_ext_1. eapply Forall_impl; [done|].
    intros [x y] [_ Hy]. unfold mirror_y. simpl in *.
    by rewrite mirror_twice.
Qed.

End Symmetries.

(** * The properties on the examples *)

#[local] Existing Instance toy_accelerator.

Lemma toy_accelerator_laws : AcceleratorLaws.
Proof.
  assert (Hc : ∀ str (a : list (Z * Z)) m c u,
    toy_check a m c u = true → toy_check (a ++ [toy_chord str]) m c u = true).
  { intros str a m c u Ha. unfold toy_check in *.
    rewrite existsb_app, Ha. done. }
  assert (Hk : ∀ str (a : list (Z * Z)) key,
    toy_checkFromAllegroKeyArray a key = true →
    toy_checkFromAllegroKeyArray (a ++ [toy_chord str]) key = true).
  { intros str a key Ha. unfold toy_checkFromAllegroKeyArray in *.
    rewrite existsb_app, Ha. done. }
  split; [exact Hc | exact Hk |].
  intros str a. split; simpl.
  - intros m c u Hm. unfold toy_check in *. rewrite existsb_app.
    simpl in *. rewrite Hm. apply orb_true_r.
  - intros key Hm. unfold toy_checkFromAllegroKeyArray in *. rewrite existsb_app.
    simpl in *. rewrite Hm. apply orb_true_r.
Qed.

(** Tools 1 and 2 on the key [B], tool 1 current, both
    shown: the key selects tool 2. *)
Lemma change_tool_dispatch_witness :
  let shortcuts := registry_of toy_commands toy_tool_history in
  foreground_window_on_top toy_env = false ∧
  first_hit toy_env key_B shortcuts [] (toy_tool_shortcut 1) [toy_tool_shortcut 2] ∧
  type (toy_tool_shortcut 1) = ChangeTool ∧
  onProcessMessage_KeyDown toy_env key_B shortcuts =
    ([CancelMenuLoop; SelectTool (Some 2)], ReturnTrue).
Proof.
  assert (Hhit : first_hit toy_env key_B (registry_of toy_commands toy_tool_history)
            [] (toy_tool_shortcut 1) [toy_tool_shortcut 2]).
  { split_and!; [reflexivity | constructor | reflexivity]. }
  split_and!; [reflexivity | exact Hhit | reflexivity |].
  pose proof (change_tool_dispatch toy_commands toy_env key_B toy_tool_history
                [] (toy_tool_shortcut 1) [toy_tool_shortcut 2]
                eq_refl Hhit eq_refl) as (Hother & _ & _).
  apply (Hother [1] 2 []).
  - vm_compute. lia.
  - reflexivity.
  - split; [discriminate | reflexivity].
  - constructor; [|constructor]. intros [Hne _]. by apply Hne.
Defined.

(** Tools 1 and 2 on the key [B], both hidden, tool 3
    current: the key selects tool 1, the tool of the shortcut registered
    first. *)
Lemma change_tool_fallback_witness :
  let shortcuts := registry_of toy_commands toy_tool_history in
  let possibles := candidates toy_env_hidden key_B shortcuts in
  foreground_window_on_top toy_env_hidden = false ∧
  first_hit toy_env_hidden key_B shortcuts []
    (toy_tool_shortcut 1) [toy_tool_shortcut 2] ∧
  type (toy_tool_shortcut 1) = ChangeTool ∧
  2 ≤ length possibles ∧
  Forall (λ u, ¬ other_visible_tool toy_env_hidden u) possibles ∧
(getCurrentTool toy_env_hidden ∉ possibles) ∧
  onProcessMessage_KeyDown toy_env_hidden key_B shortcuts =
    ([CancelMenuLoop; SelectTool (Some 1)], ReturnTrue).
Proof.
  assert (Hhit : first_hit toy_env_hidden key_B
            (registry_of toy_commands toy_tool_history)
            [] (toy_tool_shortcut 1) [toy_tool_shortcut 2]).
  { split_and!; [reflexivity | constructor | reflexivity]. }
  assert (Hposs : candidates toy_env_hidden key_B
            (registry_of toy_commands toy_tool_history) = [1; 2])
    by reflexivity.
  assert (Hnone : Forall (λ u, ¬ other_visible_tool toy_env_hidden u)
            (candidates toy_env_hidden key_B
               (registry_of toy_commands toy_tool_history))).
  { rewrite Hposs. repeat constructor; intros [_ Hv]; discriminate Hv. }
  assert (Hcur : getCurrentTool toy_env_hidden ∉
            candidates toy_env_hidden key_B
              (registry_of toy_commands toy_tool_history)).
  { rewrite Hposs. simpl. set_solver. }
  assert (Hlen : 2 ≤ length (candidates toy_env_hidden key_B
            (registry_of toy_commands toy_tool_history))).
  { rewrite Hposs. simpl. lia. }
  split_and!; [reflexivity | exact Hhit | reflexivity | exact Hlen
              | exact Hnone | exact Hcur |].
  exact (change_tool_fallback toy_commands toy_env_hidden key_B toy_tool_history
           [] (toy_tool_shortcut 1) [toy_tool_shortcut 2]
           eq_refl Hhit eq_refl Hlen Hnone Hcur).
Defined.

(** No selection is not what happens.  Tools 1 and 2 are on the key [B] and
    hidden, tool 3 is current and has no shortcut: there are two candidates,
    none of them is shown, the current tool is not among them, and the
    handler calls [selectTool] with tool 1, which is not the current tool. *)
Lemma change_tool_no_selection_counterexample :
  let shortcuts := registry_of toy_commands toy_tool_history in
  let possibles := candidates toy_env_hidden key_B shortcuts in
  let result := onProcessMessage_KeyDown toy_env_hidden key_B shortcuts in
  possibles = [1; 2] ∧
  Forall (λ u, ¬ other_visible_tool toy_env_hidden u) possibles ∧
(getCurrentTool toy_env_hidden ∉ possibles) ∧
  selections result.1 = [Some 1] ∧
  Some (getCurrentTool toy_env_hidden) ≠ Some 1 ∧
  result.2 = ReturnTrue.
Proof.
  split_and!; try reflexivity.
  - repeat constructor; intros [_ Hv]; discriminate Hv.
  - cbv zeta. change (candidates _ _ _) with [1; 2]. simpl. set_solver.
  - discriminate.
Qed.

(** [Ctrl+N] with the main window alone executes [NewFile]
    once, with the empty parameters. *)
Lemma execute_command_dispatch_witness :
  let shortcuts := registry_of toy_commands toy_command_history in
  let result := onProcessMessage_KeyDown toy_env key_Ctrl_N shortcuts in
  first_hit toy_env key_Ctrl_N shortcuts [] toy_newfile_shortcut [] ∧
  type toy_newfile_shortcut = ExecuteCommand ∧
  executions result.1 = [(Some 1, Some ∅)] ∧ result.2 = ReturnTrue.
Proof.
  assert (Hhit : first_hit toy_env key_Ctrl_N
            (registry_of toy_commands toy_command_history)
            [] toy_newfile_shortcut []).
  { split_and!; [reflexivity | constructor | reflexivity]. }
  assert (Hreach : reaches_main_window toy_env).
  { exists 0, toy_main_window. split_and!; [reflexivity..|].
    intros [|j] w' Hj Hw'; [|lia]. by injection Hw' as <-. }
  pose proof (execute_command_dispatch toy_env key_Ctrl_N
                (registry_of toy_commands toy_command_history)
                [] toy_newfile_shortcut [] Hhit eq_refl) as (Hex & Hret & _).
  split_and!; [exact Hhit | reflexivity | |].
  - by apply Hex.
  - by apply Hret.
Defined.

(** With a foreground window above the main window the same key executes
    nothing. *)
Example modal_window_blocks_command :
  onProcessMessage_KeyDown toy_env_modal key_Ctrl_N
    (registry_of toy_commands toy_command_history) = ([], DefaultProcessing).
Proof. reflexivity. Qed.

(** The quick tool on [B] was registered first, a
    command and a tool on [B] after it: the key [B] does nothing. *)
Lemma quicktool_hit_stops_scan_witness :
  let shortcuts := registry_of toy_commands toy_quicktool_history in
  let result := onProcessMessage_KeyDown toy_env key_B shortcuts in
  first_hit toy_env key_B shortcuts []
    toy_quicktool_shortcut [toy_openfile_shortcut; toy_tool_shortcut 1] ∧
  (type toy_quicktool_shortcut = EditorQuicktool ∨
   type toy_quicktool_shortcut = SpriteEditor) ∧
  result.2 = DefaultProcessing ∧
  executions result.1 = [] ∧ selections result.1 = [].
Proof.
  assert (Hhit : first_hit toy_env key_B
            (registry_of toy_commands toy_quicktool_history) []
            toy_quicktool_shortcut [toy_openfile_shortcut; toy_tool_shortcut 1]).
  { split_and!; [reflexivity | constructor | reflexivity]. }
  pose proof (quicktool_hit_stops_scan toy_env key_B
                (registry_of toy_commands toy_quicktool_history) []
                toy_quicktool_shortcut [toy_openfile_shortcut; toy_tool_shortcut 1]
                Hhit (or_introl eq_refl)) as (Hout & Hex & Hsel & _).
  split_and!; [exact Hhit | by left | exact Hout | exact Hex | exact Hsel].
Defined.

(** [NewFile] is registered on [Ctrl+N] and then on
    [Ctrl+M]: the registry has one shortcut, which both chords press. *)
Lemma registration_idempotent_witness :
  let r1 := RegExecuteCommand "Ctrl+N" "NewFile" None Any in
  let r2 := RegExecuteCommand "Ctrl+M" "NewFile" (Some ∅) Normal in
  let k := IdCommand 1 ∅ in
  let shortcuts1 := registry_of toy_commands [r1] in
  let shortcuts2 := register toy_commands shortcuts1 r2 in
  AcceleratorLaws ∧ r1 ∈ [r1] ∧
  registered_identity toy_commands r1 = Some k ∧
  registered_identity toy_commands r2 = Some k ∧
  length shortcuts2 = length shortcuts1 ∧
  ∃ i b a,
    shortcuts2 !! i = Some b ∧ identity_of b = Some k ∧
    (∀ j b', shortcuts2 !! j = Some b' → identity_of b' = Some k → j = i) ∧
    accel b = Some a ∧
    recognizes a "Ctrl+N" ∧ recognizes a "Ctrl+M".
Proof.
  intros r1 r2 k shortcuts1 shortcuts2.
  assert (Hin : r1 ∈ [r1]) by (by left).
  do 4 (split; [first [exact toy_accelerator_laws | exact Hin | reflexivity]|]).
  exact (registration_idempotent toy_commands [r1] r1 r2 k
           toy_accelerator_laws Hin eq_refl eq_refl).
Defined.

(** A name that is not the name of a command has no identity: the lookup
    of [get_keyboard_shortcut_for_command] answers [NULL] for it, and each
    registration under the name adds a shortcut without a command. *)
Example registration_of_unknown_command :
  registered_identity toy_commands
    (RegExecuteCommand "Ctrl+N" "Bogus" None Any) = None ∧
  length (registry_of toy_commands
            [RegExecuteCommand "Ctrl+N" "Bogus" None Any;
             RegExecuteCommand "Ctrl+M" "Bogus" None Any]) = 2.
Proof. split; reflexivity. Qed.

(** On the example commands, the key message [Ctrl+N] resolves to
    [NewFile] (command 1) with the empty parameters. *)
Lemma register_then_resolve_witness :
  let shortcuts :=
    (add_keyboard_shortcut_to_execute_command toy_commands
       "Ctrl+N" "NewFile" None Any []).1 in
  ((None : option Params) = None ∨ (None : option Params) = Some ∅) ∧
  encodes key_Ctrl_N "Ctrl+N" ∧
  get_command_from_key_message toy_env key_Ctrl_N shortcuts =
    Some (Some 1, Some ∅).
Proof.
  split_and!; [by left | reflexivity |].
  exact (register_then_resolve toy_commands toy_env key_Ctrl_N None
           (or_introl eq_refl) eq_refl).
Defined.

(** ** The tests of the specification, on the examples *)

(** Tools 1 (current), 2 (hidden) and 3 (shown) on one key: the key selects
    tool 3. *)
Example three_tools_select_visible :
  onProcessMessage_KeyDown
    (toy_state 1 (λ t, negb (bool_decide (t = 2))) [toy_main_window]) key_B
    (registry_of toy_commands
       [RegChangeTool "B" (Some 1); RegChangeTool "B" (Some 2);
        RegChangeTool "B" (Some 3)]) =
  ([CancelMenuLoop; SelectTool (Some 3)], ReturnTrue).
Proof. reflexivity. Qed.

(** Tools 1 and 2 on one key, both shown: with tool 2 current the key
    selects tool 1. *)
Example two_tools_back :
  onProcessMessage_KeyDown (toy_state 2 (λ _, true) [toy_main_window]) key_B
    (registry_of toy_commands toy_tool_history) =
  ([CancelMenuLoop; SelectTool (Some 1)], ReturnTrue).
Proof. reflexivity. Qed.

(** Tools 1 and 2 on one key, none of them shown: the key selects the
    candidate after the current one, tool 1 after tool 2. *)
Example two_hidden_tools_cycle :
  onProcessMessage_KeyDown (toy_state 1 (λ _, false) [toy_main_window]) key_B
    (registry_of toy_commands toy_tool_history) =
  ([CancelMenuLoop; SelectTool (Some 2)], ReturnTrue) ∧
  onProcessMessage_KeyDown (toy_state 2 (λ _, false) [toy_main_window]) key_B
    (registry_of toy_commands toy_tool_history) =
  ([CancelMenuLoop; SelectTool (Some 1)], ReturnTrue).
Proof. split; reflexivity. Qed.

(** A command of the key context [Selection] is pressed under the key
    context [Selection] and not under [Normal]. *)
Example selection_context_filter :
  let shortcuts :=
    registry_of toy_commands [RegExecuteCommand "Ctrl+N" "NewFile" None Selection] in
  get_command_from_key_message toy_env key_Ctrl_N shortcuts = None ∧
  get_command_from_key_message toy_env_selection key_Ctrl_N shortcuts =
    Some (Some 1, Some ∅).
Proof. split; reflexivity. Qed.

(** With a selection ink and the key of the copy selection held, there is no
    quick tool, also when the key is the key of a quick tool. *)
Example copy_selection_before_quicktool :
  get_selected_quicktool toy_env_selection
    (registry_of toy_commands
       [RegQuicktool "C" (Some 2); RegSpriteEditor "C" "CopySelection"])
    (Some 1) = None ∧
  get_selected_quicktool toy_env_selection
    (registry_of toy_commands [RegQuicktool "C" (Some 2)]) (Some 1) = Some 2.
Proof. split; reflexivity. Qed.

(** * The properties of the rest of the module, on the examples *)

#[local] Existing Instance toy_config.

Lemma toy_MID_law : MID_law toy_MID.
Proof.
  intros x y z Hxz. unfold toy_MID.
  repeat match goal with
         | |- context [(?a <? ?b)%Z] => destruct (Z.ltb_spec a b)
         end; lia.
Qed.

Lemma toy_config_rect_law : config_rect_law.
Proof. intros cfg section name r d. simpl. by rewrite lookup_insert_eq. Qed.

Lemma toy_config_string_law : config_string_law.
Proof. intros cfg section name str d. simpl. by rewrite lookup_insert_eq. Qed.

(** The name [Bogus] is not the name of a command: a shortcut without a
    command is added for it, and the accessor answers nothing. *)
Lemma unknown_command_registration_witness :
  let result := add_keyboard_shortcut_to_execute_command toy_commands
                  "Ctrl+N" "Bogus" None Any [] in
  toy_commands "Bogus" = None ∧
  length result.1 = 1%nat ∧
  get_accel_to_execute_command toy_commands "Bogus" None result.1 = None.
Proof.
  intros result.
  pose proof (unknown_command_registration toy_commands [] "Ctrl+N" "Bogus"
                None Any eq_refl) as ((b & Hb & _) & _ & Hnone).
  split_and!; [reflexivity| |].
  - fold result in Hb. by rewrite Hb.
  - apply (Hnone None).
Defined.

(** [Ctrl+N] executes [NewFile], and [get_command_from_key_message] answers
    [NewFile] for it. *)
Lemma executed_command_is_resolved_witness :
  let shortcuts := registry_of toy_commands toy_command_history in
  ((Some 1, Some ∅) ∈
     executions (onProcessMessage_KeyDown toy_env key_Ctrl_N shortcuts).1) ∧
  get_command_from_key_message toy_env key_Ctrl_N shortcuts =
    Some (Some 1, Some ∅).
Proof.
  intros shortcuts.
  assert ((Some 1, Some ∅) ∈
     executions (onProcessMessage_KeyDown toy_env key_Ctrl_N shortcuts).1) as Hin.
  { vm_compute. by left. }
  split; [exact Hin|].
  exact (executed_command_is_resolved toy_env key_Ctrl_N shortcuts _ _ Hin).
Defined.

(** The key [B] selects tool 2, which has a shortcut on [B]. *)
Lemma selected_tool_was_pressed_witness :
  let shortcuts := registry_of toy_commands toy_tool_history in
  (Some 2 ∈ selections (onProcessMessage_KeyDown toy_env key_B shortcuts).1) ∧
  tool_shortcut_pressed toy_env key_B shortcuts 2.
Proof.
  intros shortcuts.
  assert (Some 2 ∈
     selections (onProcessMessage_KeyDown toy_env key_B shortcuts).1) as Hin.
  { vm_compute. by left. }
  split; [exact Hin|].
  exact (selected_tool_was_pressed toy_env key_B shortcuts 2 Hin).
Defined.

(** Tools 1 and 2 on the key [B], tool 1 current: the key selects a tool
    other than tool 1. *)
Lemma shared_key_changes_tool_witness :
  let shortcuts := registry_of toy_commands toy_tool_history in
  foreground_window_on_top toy_env = false ∧
  first_hit toy_env key_B shortcuts [] (toy_tool_shortcut 1) [toy_tool_shortcut 2] ∧
  type (toy_tool_shortcut 1) = ChangeTool ∧
  tool (toy_tool_shortcut 1) = Some 1 ∧
  1 ∈ toolbox toy_env ∧ NoDup (toolbox toy_env) ∧
  2 ≤ length (candidates toy_env key_B shortcuts) ∧
  ∃ c, onProcessMessage_KeyDown toy_env key_B shortcuts =
         ([CancelMenuLoop; SelectTool (Some c)], ReturnTrue) ∧
       c ∈ candidates toy_env key_B shortcuts ∧ c ≠ getCurrentTool toy_env.
Proof.
  intros shortcuts.
  assert (Hhit : first_hit toy_env key_B shortcuts
            [] (toy_tool_shortcut 1) [toy_tool_shortcut 2]).
  { split_and!; [reflexivity | constructor | reflexivity]. }
  assert (Hbox : 1 ∈ toolbox toy_env) by (by left).
  assert (Hnodup : NoDup (toolbox toy_env)).
  { simpl. repeat (constructor; [set_solver|]). constructor. }
  assert (Hlen : 2 ≤ length (candidates toy_env key_B shortcuts)).
  { vm_compute. lia. }
  do 7 (split; [first [reflexivity | exact Hhit | exact Hbox | exact Hnodup
                      | exact Hlen]|]).
  exact (shared_key_changes_tool toy_commands toy_env key_B toy_tool_history
           [] (toy_tool_shortcut 1) [toy_tool_shortcut 2] 1
           eq_refl Hhit eq_refl eq_refl Hbox Hnodup Hlen).
Defined.

(** A stored screen scaling of 9 is read as 4. *)
Lemma load_gui_config_screen_scaling_witness :
  MID_law toy_MID ∧
  gfx_screen_scaling (load_gui_config toy_MID toy_gfx_config) = 4%Z.
Proof.
  split; [exact toy_MID_law|].
  pose proof (load_gui_config_screen_scaling toy_MID toy_gfx_config toy_MID_law)
    as (_ & _ & _ & Hlarge).
  apply Hlarge. vm_compute. reflexivity.
Defined.

(** The display of 1280 by 1024 cannot be created; the third resolution of
    the table can, and its scale becomes the screen scaling. *)
Example init_module_gui_fallback :
  let init := init_module_gui toy_MID toy_createDisplay toy_gfx_config in
  init_result init = 0%Z ∧
  init_main_display init = Some (640, 480, 2)%Z ∧
  init_screen_scaling init = 2%Z.
Proof. split_and!; reflexivity. Qed.

Example init_module_gui_no_display :
  let init := init_module_gui toy_MID toy_no_display toy_gfx_config in
  init_result init = (-1)%Z ∧ init_main_display init = None ∧
  init_screen_scaling init = 4%Z.
Proof. split_and!; reflexivity. Qed.

(** On a display of 1024 by 768 with the screen scaling 1, the scale of the
    theme goes from 1 to 2 and the theme is regenerated. *)
Lemma gui_setup_screen_effects_witness :
  let result := gui_setup_screen guiscale (mkTheme 1) 1 1024 768 false in
  jguiscale_law guiscale ∧
  guiscale result.1 = 2%Z ∧ RegenerateTheme ∈ result.2.
Proof.
  intros result.
  assert (jguiscale_law guiscale) as Hj by (by intros theme).
  pose proof (gui_setup_screen_effects guiscale (mkTheme 1) 1 1024 768 false Hj)
    as (Hscale & _ & Hregen & _).
  split_and!; [exact Hj| |].
  - apply Hscale. lia.
  - apply Hregen. vm_compute. discriminate.
Defined.

Lemma gui_setup_screen_again_witness :
  let theme' := (gui_setup_screen guiscale (mkTheme 1) 1 1024 768 false).1 in
  jguiscale_law guiscale ∧
  gui_setup_screen guiscale theme' 1 1024 768 false =
    (theme', [SetScale 1; SetDisplay; SaveGuiConfig]).
Proof.
  intros theme'.
  assert (jguiscale_law guiscale) as Hj by (by intros theme).
  split; [exact Hj|].
  exact (gui_setup_screen_again guiscale (mkTheme 1) 1 1024 768 false Hj).
Defined.

(** A window of 200 by 100 whose stored position is outside of a display of
    640 by 480 is moved inside. *)
Lemma load_window_pos_inside_witness :
  let cfg := save_window_pos toy_gfx_config (mkRect 900 (-50) 300 1000) "Palette" in
  let bounds := mkRect 10 10 200 100 in
  let pos := load_window_pos toy_MID cfg 640 480 bounds "Palette" in
  MID_law toy_MID ∧ int_range 640 ∧ int_range 480 ∧
  (0 ≤ rect_w bounds ≤ 640)%Z ∧ (0 ≤ rect_h bounds ≤ 480)%Z ∧
  pos = mkRect 340 0 300 480 ∧
  (0 ≤ rect_x pos)%Z ∧ (rect_x pos + rect_w pos ≤ 640)%Z.
Proof.
  intros cfg bounds pos.
  assert (int_range 640 ∧ int_range 480) as [H1 H2]
    by (unfold int_range; lia).
  assert ((0 ≤ rect_w bounds ≤ 640)%Z ∧ (0 ≤ rect_h bounds ≤ 480)%Z) as [H3 H4]
    by (simpl; lia).
  pose proof (load_window_pos_inside toy_MID cfg 640 480 bounds "Palette"
                toy_MID_law H1 H2 H3 H4) as (_ & _ & Hx & Hxw & _).
  do 6 (split; [first [exact toy_MID_law | exact H1 | exact H2 | exact H3
                      | exact H4 | reflexivity]|]).
  split; [exact Hx | exact Hxw].
Defined.

(** A position inside the display comes back as it was saved. *)
Lemma load_saved_window_pos_witness :
  let saved := mkRect 100 50 300 200 in
  let bounds := mkRect 10 10 200 100 in
  MID_law toy_MID ∧ config_rect_law ∧ int_range 640 ∧ int_range 480 ∧
  (0 ≤ rect_w bounds ≤ rect_w saved)%Z ∧ (0 ≤ rect_h bounds ≤ rect_h saved)%Z ∧
  (0 ≤ rect_x saved)%Z ∧ (rect_x saved + rect_w saved ≤ 640)%Z ∧
  (0 ≤ rect_y saved)%Z ∧ (rect_y saved + rect_h saved ≤ 480)%Z ∧
  load_window_pos toy_MID (save_window_pos toy_gfx_config saved "Palette")
    640 480 bounds "Palette" = saved.
Proof.
  intros saved bounds.
  assert (int_range 640 ∧ int_range 480) as [H1 H2]
    by (unfold int_range; lia).
  assert ((0 ≤ rect_w bounds ≤ rect_w saved)%Z) as H3 by (simpl; lia).
  assert ((0 ≤ rect_h bounds ≤ rect_h saved)%Z) as H4 by (simpl; lia).
  assert ((0 ≤ rect_x saved)%Z) as H5 by (simpl; lia).
  assert ((rect_x saved + rect_w saved ≤ 640)%Z) as H6 by (simpl; lia).
  assert ((0 ≤ rect_y saved)%Z) as H7 by (simpl; lia).
  assert ((rect_y saved + rect_h saved ≤ 480)%Z) as H8 by (simpl; lia).
  do 10 (split; [first [exact toy_MID_law | exact toy_config_rect_law | done]|]).
  exact (load_saved_window_pos toy_MID toy_gfx_config 640 480 saved bounds
           "Palette" toy_MID_law toy_config_rect_law H1 H2 H3 H4 H5 H6 H7 H8).
Defined.

(** The layout of a widget with a root window is saved and loaded; nothing
    is saved for a widget without one. *)
Lemma load_saved_layout_witness :
  config_string_law ∧
  loadLayout (saveLayout toy_gfx_config toy_widget "120,80") toy_widget = "120,80" ∧
  saveLayout toy_gfx_config toy_orphan "120,80" = toy_gfx_config.
Proof.
  pose proof (load_saved_layout toy_gfx_config toy_widget "120,80"
                toy_config_string_law) as (Hload & _).
  pose proof (load_saved_layout toy_gfx_config toy_orphan "120,80"
                toy_config_string_law) as (_ & Horphan).
  split_and!; [exact toy_config_string_law| |].
  - apply Hload. by eexists.
  - by apply Horphan.
Defined.

(** Two files are dropped on the main window. *)
Example drop_two_files :
  onProcessMessage toy_commands "Exit" "OpenFile" toy_env (Some 0%nat)
    (kDropFilesMessage ["a.png"; "b.png"]) [] =
  ([Handled (ExecCommand (Some 2%nat) (Some {["filename" := "a.png"]}));
    Handled (ExecCommand (Some 2%nat) (Some {["filename" := "b.png"]}))],
   DefaultProcessing).
Proof. reflexivity. Qed.

(** A stroke of two points, mirrored at [x = 10] with a brush of width 3,
    and mirrored back. *)
Lemma generateStrokes_involution_witness :
  let mainStroke := [mkPoint 3 4; mkPoint 12 5] in
  let stroke2 := [mkPoint 16 4; mkPoint 7 5] in
  Forall (λ pt, int_range (pt_x pt) ∧ int_range (pt_y pt)) mainStroke ∧
  HorizontalSymmetry_generateStrokes 10 3 mainStroke [] = [mainStroke; stroke2] ∧
  HorizontalSymmetry_generateStrokes 10 3 stroke2 [] = [stroke2; mainStroke].
Proof.
  intros mainStroke stroke2.
  assert (Forall (λ pt, int_range (pt_x pt) ∧ int_range (pt_y pt)) mainStroke)
    as Hrange.
  { repeat constructor; unfold int_range; simpl; lia. }
  split_and!; [exact Hrange|reflexivity|].
  pose proof (generateStrokes_involution 10 3 mainStroke Hrange) as (Hh & _).
  by apply Hh.
Defined.

(** The shortcut of tool 1 on [B] is still pressed by [B] after [M] is
    registered for tool 1. *)
Lemma registration_keeps_pressed_witness :
  let shortcuts := registry_of toy_commands toy_tool_history in
  AcceleratorLaws ∧
  shortcuts !! 0%nat = Some (toy_tool_shortcut 1) ∧
  ∃ s', register toy_commands shortcuts (RegChangeTool "M" (Some 1)) !! 0%nat
          = Some s' ∧
        (is_pressed toy_env key_B (toy_tool_shortcut 1) = true →
         is_pressed toy_env key_B s' = true) ∧
        (is_pressed_from_key_array toy_env (toy_tool_shortcut 1) = true →
         is_pressed_from_key_array toy_env s' = true).
Proof.
  intros shortcuts.
  split; [exact toy_accelerator_laws|]. split; [reflexivity|].
  exact (registration_keeps_pressed toy_commands toy_env key_B shortcuts
           (RegChangeTool "M" (Some 1)) 0 (toy_tool_shortcut 1)
           toy_accelerator_laws eq_refl).
Defined.

(** With the key [C] held, the quick tool 2 is answered when there is no
    current tool, and no quick tool when the current tool has a selection
    ink and [C] is the key of the copy selection as well. *)
Lemma get_selected_quicktool_spec_witness :
  let shortcuts := registry_of toy_commands toy_copy_history in
  quicktool_shortcut_pressed toy_env_selection shortcuts 2 ∧
  get_selected_quicktool toy_env_selection shortcuts None = Some 2 ∧
  copy_selection_shortcut_held toy_env_selection shortcuts (Some 1) ∧
  get_selected_quicktool toy_env_selection shortcuts (Some 1) = None.
Proof.
  intros shortcuts.
  assert (Hp2 : quicktool_shortcut_pressed toy_env_selection shortcuts 2).
  { unfold quicktool_shortcut_pressed. apply (bool_decide_unpack _).
    vm_compute. exact I. }
  assert (Hn1 : ¬ quicktool_shortcut_pressed toy_env_selection shortcuts 1).
  { unfold quicktool_shortcut_pressed. apply (bool_decide_unpack _).
    vm_compute. exact I. }
  assert (Hheld : copy_selection_shortcut_held toy_env_selection shortcuts (Some 1)).
  { exists 1. split; [reflexivity|]. split; [reflexivity|].
    apply Exists_exists. exists toy_copy_shortcut. split.
    - apply (list_elem_of_lookup_2 _ 1). reflexivity.
    - split; [reflexivity|]. split; [reflexivity|].
      exists [(0, 67)%Z]. split; reflexivity. }
  pose proof (get_selected_quicktool_spec toy_commands toy_env_selection
                toy_copy_history None) as (_ & Hscan & _).
  pose proof (get_selected_quicktool_spec toy_commands toy_env_selection
                toy_copy_history (Some 1)) as (Hnone & _ & _).
  split; [exact Hp2|]. split; [|split; [exact Hheld|exact (Hnone Hheld)]].
  apply Hscan.
  - intros (t & Ht & _). discriminate Ht.
  - exists [1], [3]. split; [reflexivity|]. split; [exact Hp2|].
    constructor; [exact Hn1|constructor].
Defined.
